(** * Configuration schema validation (api/src/schemas/index.ts)

    A shallow embedding of the configuration validator and of the part of
    the zod 3 validation library it is written with.

    Modelling conventions.
    - A JavaScript value is a term of [value].  The numbers of a
      configuration are the finite ones, represented as rationals ([Q]);
      NaN and the infinities are not among the configuration values.
      Comparison and the remainder are exact in binary64 and are computed
      on the rationals.  The product [width * height] is rounded as
      binary64 rounds it ([times]): to the nearest value, ties to even,
      with gradual underflow and overflow to an infinity.
    - Strings are [string] (sequences of bytes); [toLowerCase] lowers the
      ASCII letters: the messages of the library are ASCII, and a value
      they quote comes from the configuration as it is.
    - The process-wide configuration read through [config.lowercase()] is
      an explicit argument, and the logger is a trace of log lines. *)

From Stdlib Require Import List String Ascii ZArith QArith Qround Qabs Qpower Bool.
From Stdlib Require Import DecimalString Lia.
Import ListNotations.

Set Warnings "-register-all".
Open Scope string_scope.

(* ================================================================= *)
(** ** JavaScript values *)

Module JS.

Inductive value : Type :=
| VUndefined
| VNull
| VBool (b : bool)
| VNum (n : Q)
| VStr (s : string)
| VArr (items : list value)
| VObj (fields : list (string * value)).

(** [o[key]] on the own properties of an object. *)
Fixpoint lookup (fields : list (string * value)) (key : string) : option value :=
  match fields with
  | [] => None
  | (k, v) :: rest => if String.eqb k key then Some v else lookup rest key
  end.

Definition get (fields : list (string * value)) (key : string) : value :=
  match lookup fields key with
  | Some v => v
  | None => VUndefined
  end.

(** [a < b] and [a > b] on numbers. *)
Definition lt (a b : Q) : bool := negb (Qle_bool b a).
Definition gt (a b : Q) : bool := lt b a.

(** [Math.trunc] of a rational, and the remainder operator [a % b]
    (for [b <> 0]): the result has the sign of the dividend. *)
Definition trunc (a : Q) : Z := Z.quot (Qnum a) (Z.pos (Qden a)).
Definition rem (a b : Q) : Q := a - b * inject_Z (trunc (a / b)).

(** The result of an arithmetic operation on finite numbers: a finite
    number or an infinity. *)
Inductive double : Type :=
| Finite (q : Q)
| Infinity (negative : bool).

(** The integer part of the binary logarithm of a positive rational. *)
Definition ilog2 (a : Q) : Z :=
  let k := (Z.log2 (Qnum a) - Z.log2 (Z.pos (Qden a)))%Z in
  if Qle_bool (2 ^ k) a then k else (k - 1)%Z.

(** The exponent of the unit in the last place of a positive rational:
    53 significant bits, and no exponent below that of the subnormal
    numbers. *)
Definition exponent (a : Q) : Z := Z.max (ilog2 a - 52) (-1074).

(** The nearest integer of a non-negative rational, the even one of the
    two when it lies half way. *)
Definition nearestEven (x : Q) : Z :=
  let f := Qfloor x in
  match Qcompare (x - inject_Z f) (1 # 2) with
  | Lt => f
  | Gt => (f + 1)%Z
  | Eq => if Z.even f then f else (f + 1)%Z
  end.

Definition magnitude (a : Q) : Q :=
  let e := exponent a in
  inject_Z (nearestEven (a / 2 ^ e)) * 2 ^ e.

(** Rounding of an exact result to binary64, to nearest with ties to
    even; a magnitude of 2^1024 or more overflows. *)
Definition binary64 (x : Q) : double :=
  let x := Qred x in
  if Qeq_bool x 0 then Finite 0
  else
    let r := magnitude (Qabs x) in
    let negative := negb (Qle_bool 0 x) in
    if Qle_bool (2 ^ 1024) r then Infinity negative
    else Finite (if negative then - r else r).

(** [a * b] *)
Definition times (a b : Q) : double := binary64 (a * b).

(** [a < b] and [a > b] for the result of an operation. *)
Definition lessThan (a : double) (b : Q) : bool :=
  match a with
  | Finite q => lt q b
  | Infinity negative => negative
  end.

Definition greaterThan (a : double) (b : Q) : bool :=
  match a with
  | Finite q => gt q b
  | Infinity negative => negb negative
  end.

(** [hay.includes(needle)] *)
Fixpoint includes (needle hay : string) : bool :=
  String.prefix needle hay
  || match hay with
     | EmptyString => false
     | String _ rest => includes needle rest
     end.

Definition lower_ascii (c : ascii) : ascii :=
  let n := nat_of_ascii c in
  if (65 <=? n)%nat && (n <=? 90)%nat then ascii_of_nat (n + 32) else c.

Fixpoint toLowerCase (s : string) : string :=
  match s with
  | EmptyString => EmptyString
  | String c rest => String (lower_ascii c) (toLowerCase rest)
  end.

Definition show_nat (n : nat) : string := NilZero.string_of_uint (Nat.to_uint n).
Definition show_Z (z : Z) : string := NilZero.string_of_int (Z.to_int z).

End JS.

Import JS.

(* ================================================================= *)
(** ** The zod 3 library, as far as the schema uses it *)

Module Zod.

Inductive segment : Type :=
| Key (k : string)
| Idx (i : nat).

Definition path := list segment.

Inductive issueCode : Type :=
| invalid_type
| invalid_literal
| invalid_union
| invalid_enum_value
| too_small
| too_big
| custom.

(** A [ZodIssue].  The [unionErrors] of an [invalid_union] issue are not
    kept: the validator reads [path] and [message] only. *)
Record issue : Type := mkIssue {
  code : issueCode;
  ipath : path;
  message : string
}.

(** [ParseStatus]: "valid", "dirty" (issues were added but a value is
    still produced) or "aborted" ([INVALID]). *)
Inductive status : Type := Valid | Dirty | Aborted.

Definition merge (a b : status) : status :=
  match a, b with
  | Aborted, _ | _, Aborted => Aborted
  | Dirty, _ | _, Dirty => Dirty
  | Valid, Valid => Valid
  end.

Definition parsed := (status * list issue)%type.

Inductive check : Type :=
| Min (z : Z)
| Max (z : Z).

Inductive zschema : Type :=
| ZBoolean
| ZString
| ZNumber (checks : list check)
| ZEnum (values : list string)
| ZLiteral (b : bool)
| ZArray (element : zschema) (minLength : option nat)
| ZObject (shape : list (string * zschema))
| ZUnion (options : list zschema)
| ZEffects (inner : zschema) (refinement : value -> bool) (msg : string)
| ZOptional (inner : zschema)
| ZNullable (inner : zschema).

(** [getParsedType], as the name the error map prints. *)
Definition parsedType (v : value) : string :=
  match v with
  | VUndefined => "undefined"
  | VNull => "null"
  | VBool _ => "boolean"
  | VNum _ => "number"
  | VStr _ => "string"
  | VArr _ => "array"
  | VObj _ => "object"
  end.

(** The default (English) error map. *)
Definition invalidType (p : path) (expected : string) (v : value) : issue :=
  mkIssue invalid_type p
    match v with
    | VUndefined => "Required"
    | _ => "Expected " ++ expected ++ ", received " ++ parsedType v
    end.

Definition joinValues (vs : list string) : string :=
  String.concat " | " (map (fun s => "'" ++ s ++ "'") vs).

Definition invalidEnumValue (p : path) (options : list string) (received : string) : issue :=
  mkIssue invalid_enum_value p
    ("Invalid enum value. Expected " ++ joinValues options
       ++ ", received '" ++ received ++ "'").

Definition invalidLiteral (p : path) (expected : bool) : issue :=
  mkIssue invalid_literal p
    ("Invalid literal value, expected " ++ if expected then "true" else "false").

Definition invalidUnion (p : path) : issue :=
  mkIssue invalid_union p "Invalid input".

Definition tooSmallNumber (p : path) (minimum : Z) : issue :=
  mkIssue too_small p ("Number must be greater than or equal to " ++ show_Z minimum).

Definition tooBigNumber (p : path) (maximum : Z) : issue :=
  mkIssue too_big p ("Number must be less than or equal to " ++ show_Z maximum).

Definition tooSmallArray (p : path) (minimum : nat) : issue :=
  mkIssue too_small p
    ("Array must contain at least " ++ show_nat minimum ++ " element(s)").

Definition customIssue (p : path) (msg : string) : issue :=
  mkIssue custom p msg.

(** The checks of a [ZodNumber], run in order; each failure adds an
    issue and makes the result dirty. *)
Definition checkNumber (p : path) (n : Q) (c : check) : list issue :=
  match c with
  | Min z => if lt n (inject_Z z) then [tooSmallNumber p z] else []
  | Max z => if gt n (inject_Z z) then [tooBigNumber p z] else []
  end.

Definition checkNumbers (p : path) (n : Q) (cs : list check) : list issue :=
  flat_map (checkNumber p n) cs.

Definition checkMinLength (p : path) (len : nat) (minLength : option nat) : list issue :=
  match minLength with
  | Some m => if (len <? m)%nat then [tooSmallArray p m] else []
  | None => []
  end.

Definition dirtyIf (issues : list issue) : status :=
  match issues with
  | [] => Valid
  | _ => Dirty
  end.

Definition enumMember (values : list string) (s : string) : bool :=
  existsb (String.eqb s) values.

(** [ParseStatus.mergeArray] and [ParseStatus.mergeObjectSync]: every
    item (every key of the shape) has been parsed and has added its
    issues; the result is aborted if one of them is, dirty if one is. *)
Fixpoint mergeAll (results : list parsed) : parsed :=
  match results with
  | [] => (Valid, [])
  | r :: rest =>
      let rs := mergeAll rest in
      (merge (fst r) (fst rs), (snd r ++ snd rs)%list)
  end.

(** The items of an array with their indices, from [i] on. *)
Fixpoint indexed (i : nat) (items : list value) : list (nat * value) :=
  match items with
  | [] => []
  | x :: rest => (i, x) :: indexed (S i) rest
  end.

(** The loop of [ZodUnion._parse] over the results of the options, each
    parsed in a context of its own: the first valid option wins; failing
    that the issues of the first dirty option are kept; failing that the
    union reports one [invalid_union] issue. *)
Fixpoint scan (p : path) (results : list parsed) (dirty : option (list issue)) : parsed :=
  match results with
  | [] =>
      match dirty with
      | Some issues => (Dirty, issues)
      | None => (Aborted, [invalidUnion p])
      end
  | (Valid, _) :: _ => (Valid, [])
  | (Dirty, issues) :: rest =>
      scan p rest (match dirty with
                   | Some d => Some d
                   | None => Some issues
                   end)
  | (Aborted, _) :: rest => scan p rest dirty
  end.

(** [ZodEffects._parse] for a refinement: not run when the inner schema
    aborted; a failed refinement adds a custom issue and makes the
    result dirty. *)
Definition refine (p : path) (inner : parsed) (holds : bool) (msg : string) : parsed :=
  match inner with
  | (Aborted, issues) => (Aborted, issues)
  | (st, issues) =>
      if holds then (st, issues)
      else (Dirty, (issues ++ [customIssue p msg])%list)
  end.

(** [schema._parseSync] at path [p] on data [v]: the status and the
    issues added to the context, in the order they are added.

    A refinement receives the parsed output; no schema here transforms
    its input, so the output of a parse that is not aborted has the
    fields of the input and the refinement is run on the input. *)
Fixpoint parse (s : zschema) (p : path) (v : value) {struct s} : parsed :=
  match s with
  | ZBoolean =>
      match v with
      | VBool _ => (Valid, [])
      | _ => (Aborted, [invalidType p "boolean" v])
      end
  | ZString =>
      match v with
      | VStr _ => (Valid, [])
      | _ => (Aborted, [invalidType p "string" v])
      end
  | ZNumber checks =>
      match v with
      | VNum n => let issues := checkNumbers p n checks in (dirtyIf issues, issues)
      | _ => (Aborted, [invalidType p "number" v])
      end
  | ZEnum values =>
      match v with
      | VStr x =>
          if enumMember values x then (Valid, [])
          else (Aborted, [invalidEnumValue p values x])
      | _ => (Aborted, [invalidType p (joinValues values) v])
      end
  | ZLiteral b =>
      match v with
      | VBool x => if Bool.eqb x b then (Valid, []) else (Aborted, [invalidLiteral p b])
      | _ => (Aborted, [invalidLiteral p b])
      end
  | ZArray element minLength =>
      match v with
      | VArr items =>
          let lengthIssues := checkMinLength p (List.length items) minLength in
          mergeAll
            ((dirtyIf lengthIssues, lengthIssues)
               :: map (fun ix => parse element (p ++ [Idx (fst ix)])%list (snd ix))
                    (indexed 0 items))
      | _ => (Aborted, [invalidType p "array" v])
      end
  | ZObject shape =>
      match v with
      | VObj fields =>
          mergeAll
            (map (fun ks => parse (snd ks) (p ++ [Key (fst ks)])%list (get fields (fst ks)))
               shape)
      | _ => (Aborted, [invalidType p "object" v])
      end
  | ZUnion options =>
      scan p (map (fun o => parse o p v) options) None
  | ZEffects inner refinement msg =>
      refine p (parse inner p v) (refinement v) msg
  | ZOptional inner =>
      match v with
      | VUndefined => (Valid, [])
      | _ => parse inner p v
      end
  | ZNullable inner =>
      match v with
      | VNull => (Valid, [])
      | _ => parse inner p v
      end
  end.

(** [s.nullish()] is [s.nullable().optional()]. *)
Definition nullish (s : zschema) : zschema := ZOptional (ZNullable s).

(** [schema.safeParse(data)]: [None] is [success: true], [Some issues]
    is [success: false] with [error.issues]. *)
Definition safeParse (s : zschema) (data : value) : option (list issue) :=
  match parse s [] data with
  | (Valid, _) => None
  | (_, issues) => Some issues
  end.

Definition showSegment (g : segment) : string :=
  match g with
  | Key k => k
  | Idx i => show_nat i
  end.

(** [path.join('.')] *)
Definition joinPath (p : path) : string :=
  String.concat "." (map showSegment p).

End Zod.

Import Zod.

(* ================================================================= *)
(** ** api/src/schemas/index.ts *)

Module Schemas.

(** The argument of the two size predicates:
    [{ width: number; height: number; engine_id: string }]. *)
Record SizeValue : Type := mkSize {
  width : Q;
  height : Q;
  engine_id : string
}.

Definition validateSizeFor768 (value : SizeValue) : bool :=
  let size := times (width value) (height value) in
  negb (includes "768" (engine_id value)
        && (lessThan size 589824 || greaterThan size 1048576)).

Definition validateSizeForOtherEngines (value : SizeValue) : bool :=
  let size := times (width value) (height value) in
  negb (Bool.eqb (includes "768" (engine_id value)) false
        && (lessThan size 262144 || greaterThan size 1048576)).

(** [(value) => value.width % 64 === 0 && value.height % 64 === 0] *)
Definition multiplesOf64 (value : SizeValue) : bool :=
  Qeq_bool (rem (width value) 64) 0 && Qeq_bool (rem (height value) 64) 0.

(** The object a refinement receives, read at the three fields the
    predicates use.  A refinement runs only when the object schema it
    wraps did not abort, so [width] and [height] are numbers and
    [engine_id] is a string there; the other branches are never
    reached. *)
Definition numberField (v : value) (key : string) : Q :=
  match v with
  | VObj fields => match get fields key with VNum n => n | _ => 0 end
  | _ => 0
  end.

Definition stringField (v : value) (key : string) : string :=
  match v with
  | VObj fields => match get fields key with VStr s => s | _ => "" end
  | _ => ""
  end.

Definition sizeValue (v : value) : SizeValue :=
  mkSize (numberField v "width") (numberField v "height") (stringField v "engine_id").

Definition levels : list string :=
  ["silent"; "error"; "warn"; "info"; "http"; "verbose"; "debug"; "silly"].

Definition orders : list string := ["random"; "recent"].

Definition sizes : list string := ["1024x1024"; "512x512"; "256x256"].

Definition styles : list string :=
  ["3d-model"; "analog-film"; "anime"; "cinematic"; "comic-book";
   "digital-art"; "enhance"; "fantasy-art"; "isometric"; "line-art";
   "low-poly"; "modeling-compound"; "neon-punk"; "origami";
   "photographic"; "pixel-art"; "tile-texture"].

Definition msgMultiples : string := "Width and height must be multiples of 64".
Definition msgSize768 : string :=
  "Size must be between 589,824 (768x768) and 1,048,576 (1024x1024) for engine_id containing 768".
Definition msgSizeOther : string :=
  "Size must be between 262,144 (512x512) and 1,048,576 (1024x1024) for other engine_ids".

(** The schema; the two provider image unions and the [stabilityai]
    entry are named so that statements can refer to them. *)
Definition openaiImage : zschema :=
  ZUnion
    [ ZObject
        [ ("size", ZEnum sizes);
          ("style", ZArray ZString (Some 1%nat)) ];
      ZLiteral false ].

Definition stabilityaiImageObject : zschema :=
  ZObject
    [ ("engine_id", ZString);
      ("width", ZNumber []);
      ("height", ZNumber []);
      ("timeout", ZNumber []);
      ("cfg_scale", ZNumber [Min 0; Max 35]);
      ("samples", ZNumber [Min 1; Max 10]);
      ("steps", ZNumber [Min 10; Max 50]);
      ("style", ZArray (ZEnum styles) (Some 1%nat)) ].

Definition stabilityaiImage : zschema :=
  ZUnion
    [ ZEffects
        (ZEffects
           (ZEffects stabilityaiImageObject
              (fun value => multiplesOf64 (sizeValue value)) msgMultiples)
           (fun value => validateSizeFor768 (sizeValue value)) msgSize768)
        (fun value => validateSizeForOtherEngines (sizeValue value)) msgSizeOther;
      ZLiteral false ].

Definition stabilityai : zschema :=
  nullish (ZObject [ ("key", ZString); ("image", stabilityaiImage) ]).

Definition schema : zschema :=
  ZObject
    [ ("telemetry", ZBoolean);
      ("logs", ZObject [ ("level", ZEnum levels) ]);
      ("time", ZObject [ ("timezone", ZString); ("format", nullish ZString) ]);
      ("image", ZObject [ ("interval", ZNumber [Min 10]); ("order", ZEnum orders) ]);
      ("transcript",
        ZObject
          [ ("cron", ZString);
            ("minutes", ZNumber []);
            ("minimum", ZNumber [Min 1]) ]);
      ("openai",
        ZObject
          [ ("key", ZString);
            ("summary",
              ZObject
                [ ("model", ZString); ("prompt", ZString); ("random", ZString) ]);
            ("image", openaiImage) ]);
      ("stabilityai", stabilityai);
      ("system",
        ZObject
          [ ("port", ZNumber []);
            ("storage", ZObject [ ("path", ZString) ]) ]) ].

(** The logger [new Log('schema validation')]: each call appends a line. *)
Inductive logLine : Type :=
| LogVerbose (text : string)
| LogError (text : string).

(** The [errors] array and the log, threaded through the body. *)
Definition effects := (list string * list logLine)%type.

Definition push (message : string) (st : effects) : effects :=
  ((fst st ++ [message])%list, snd st).

Definition write (line : logLine) (st : effects) : effects :=
  (fst st, (snd st ++ [line])%list).

Definition errorMessage (error : issue) : string :=
  joinPath (ipath error) ++ ": " ++ toLowerCase (message error).

Section Validate.

(** [util.inspect(redact(configuration), { depth: null, colors: false })]:
    the redaction helper and the renderer are not part of this file. *)
Variable inspectRedacted : value -> string.

(** The body of [validate.error.issues.forEach]. *)
Definition forEachIssue (returnErrors : bool) (st : effects) (error : issue) : effects :=
  let message := errorMessage error in
  if returnErrors then push message st else write (LogError message) st.

(** The default export, applied to the value of [config.lowercase()]:
    the returned [errors] and the lines written to the log. *)
Definition validate (returnErrors : bool) (configuration : value) : effects :=
  let st := ([], []) in
  let result := safeParse schema configuration in
  let st :=
    if negb returnErrors then write (LogVerbose (inspectRedacted configuration)) st
    else st in
  match result with
  | None => st
  | Some issues =>
      let st :=
        if negb returnErrors
        then write (LogError (show_nat (List.length issues) ++ " validation error(s)")) st
        else st in
      fold_left (forEachIssue returnErrors) issues st
  end.

End Validate.

End Schemas.

Import Schemas.

(* ================================================================= *)
(** ** Configurations with fields of the declared primitive types *)

Module Config.

(** An optional field: missing, [null], or present. *)
Inductive optional (A : Type) : Type :=
| Absent
| IsNull
| Present (a : A).
Arguments Absent {A}.
Arguments IsNull {A}.
Arguments Present {A} a.

(** A sub-configuration that is either the literal [false] or an object. *)
Inductive switch (A : Type) : Type :=
| Disabled
| Enabled (a : A).
Arguments Disabled {A}.
Arguments Enabled {A} a.

Record OpenaiImage : Type := mkOpenaiImage {
  oi_size : string;
  oi_style : list string
}.

Record ImageParams : Type := mkImageParams {
  p_engine_id : string;
  p_width : Q;
  p_height : Q;
  p_timeout : Q;
  p_cfg_scale : Q;
  p_samples : Q;
  p_steps : Q;
  p_style : list string
}.

Record Stabilityai : Type := mkStabilityai {
  s_key : string;
  s_image : switch ImageParams
}.

Record Configuration : Type := mkConfiguration {
  telemetry : bool;
  logs_level : string;
  time_timezone : string;
  time_format : optional string;
  image_interval : Q;
  image_order : string;
  transcript_cron : string;
  transcript_minutes : Q;
  transcript_minimum : Q;
  openai_key : string;
  summary_model : string;
  summary_prompt : string;
  summary_random : string;
  openai_image : switch OpenaiImage;
  stabilityai_config : optional Stabilityai;
  system_port : Q;
  storage_path : string
}.

(** The JavaScript object of a configuration. *)
Definition field {A : Type} (key : string) (enc : A -> value) (o : optional A)
  : list (string * value) :=
  match o with
  | Absent => []
  | IsNull => [(key, VNull)]
  | Present a => [(key, enc a)]
  end.

Definition strings (l : list string) : value := VArr (map VStr l).

Definition encodeOpenaiImage (i : switch OpenaiImage) : value :=
  match i with
  | Disabled => VBool false
  | Enabled o => VObj [ ("size", VStr (oi_size o)); ("style", strings (oi_style o)) ]
  end.

Definition encodeParams (p : ImageParams) : value :=
  VObj
    [ ("engine_id", VStr (p_engine_id p));
      ("width", VNum (p_width p));
      ("height", VNum (p_height p));
      ("timeout", VNum (p_timeout p));
      ("cfg_scale", VNum (p_cfg_scale p));
      ("samples", VNum (p_samples p));
      ("steps", VNum (p_steps p));
      ("style", strings (p_style p)) ].

Definition encodeImage (i : switch ImageParams) : value :=
  match i with
  | Disabled => VBool false
  | Enabled p => encodeParams p
  end.

Definition encodeStabilityai (s : Stabilityai) : value :=
  VObj [ ("key", VStr (s_key s)); ("image", encodeImage (s_image s)) ].

(** [encodeWith c sv]: the object of [c] with the value [sv] at the
    [stabilityai] property, or without that property for [None]. *)
Definition encodeWith (c : Configuration) (sv : option value) : value :=
  VObj
    ([ ("telemetry", VBool (telemetry c));
       ("logs", VObj [ ("level", VStr (logs_level c)) ]);
       ("time",
         VObj (("timezone", VStr (time_timezone c))
                 :: field "format" VStr (time_format c)));
       ("image",
         VObj [ ("interval", VNum (image_interval c));
                ("order", VStr (image_order c)) ]);
       ("transcript",
         VObj [ ("cron", VStr (transcript_cron c));
                ("minutes", VNum (transcript_minutes c));
                ("minimum", VNum (transcript_minimum c)) ]);
       ("openai",
         VObj [ ("key", VStr (openai_key c));
                ("summary",
                  VObj [ ("model", VStr (summary_model c));
                         ("prompt", VStr (summary_prompt c));
                         ("random", VStr (summary_random c)) ]);
                ("image", encodeOpenaiImage (openai_image c)) ]) ]
       ++ match sv with
          | Some v => [ ("stabilityai", v) ]
          | None => []
          end
       ++ [ ("system",
              VObj [ ("port", VNum (system_port c));
                     ("storage", VObj [ ("path", VStr (storage_path c)) ]) ]) ])%list.

Definition encodeOptional (s : optional Stabilityai) : option value :=
  match s with
  | Absent => None
  | IsNull => Some VNull
  | Present s => Some (encodeStabilityai s)
  end.

Definition encode (c : Configuration) : value :=
  encodeWith c (encodeOptional (stabilityai_config c)).

(** *** The rule set of the specification

    The rules as the specification words them: width, height, timeout,
    samples and steps are integers, the ranges are inclusive, the
    enumerated fields hold members of their enumerations, the style arrays
    are not empty, and the two cross-field rules hold.  The types of
    [Configuration] carry the presence and primitive-type rules. *)

Definition isInteger (n : Q) : bool := Qeq_bool n (inject_Z (Qfloor n)).

Definition between (lo hi n : Q) : bool := Qle_bool lo n && Qle_bool n hi.

Definition sizeOf (p : ImageParams) : SizeValue :=
  mkSize (p_width p) (p_height p) (p_engine_id p).

(** Cross-field rule A. *)
Definition ruleMultiplesOf64 (p : ImageParams) : bool :=
  isInteger (p_width p) && isInteger (p_height p)
  && (Qfloor (p_width p) mod 64 =? 0)%Z && (Qfloor (p_height p) mod 64 =? 0)%Z.

(** Cross-field rules B and C. *)
Definition ruleArea (p : ImageParams) : bool :=
  if includes "768" (p_engine_id p)
  then between 589824 1048576 (p_width p * p_height p)
  else between 262144 1048576 (p_width p * p_height p).

Definition paramsRules (p : ImageParams) : bool :=
  isInteger (p_width p) && isInteger (p_height p) && isInteger (p_timeout p)
  && between 0 35 (p_cfg_scale p)
  && isInteger (p_samples p) && between 1 10 (p_samples p)
  && isInteger (p_steps p) && between 10 50 (p_steps p)
  && negb (Nat.eqb (List.length (p_style p)) 0)
  && forallb (enumMember styles) (p_style p)
  && ruleMultiplesOf64 p
  && ruleArea p.

Definition openaiImageRules (i : switch OpenaiImage) : bool :=
  match i with
  | Disabled => true
  | Enabled o =>
      enumMember sizes (oi_size o) && negb (Nat.eqb (List.length (oi_style o)) 0)
  end.

Definition stabilityaiRules (s : optional Stabilityai) : bool :=
  match s with
  | Absent | IsNull => true
  | Present s =>
      match s_image s with
      | Disabled => true
      | Enabled p => paramsRules p
      end
  end.

Definition rules (c : Configuration) : bool :=
  enumMember levels (logs_level c)
  && Qle_bool 10 (image_interval c)
  && enumMember orders (image_order c)
  && Qle_bool 1 (transcript_minimum c)
  && openaiImageRules (openai_image c)
  && stabilityaiRules (stabilityai_config c).

(** *** The provider config as the specification words it *)





(** A configuration that satisfies every rule. *)
Definition sampleParams : ImageParams :=
  mkImageParams "stable-diffusion-512-v2-1" 512 512 30 7 1 30 ["enhance"].

Definition sample : Configuration :=
  mkConfiguration
    true "info" "utc" Absent 60 "recent" "0 * * * *" 60 5
    "sk" "gpt" "summarize" "pick" (Enabled (mkOpenaiImage "512x512" ["oil painting"]))
    (Present (mkStabilityai "sk" (Enabled sampleParams)))
    3000 "/.storage".

End Config.

Import Config.

(* ================================================================= *)
(** ** Definitions used in the statements *)

Open Scope list_scope.

(** A result is coherent when it is valid exactly if it carries no issue. *)
Definition coherent (r : parsed) : Prop := fst r = Valid <-> snd r = [].

(** Every issue lies at or below the path the schema was parsed at. *)
Definition below (p : path) (i : issue) : Prop := exists q, ipath i = (p ++ q)%list.

(** A result made of checks that add issues without aborting. *)
Definition report (issues : list issue) : parsed := (dirtyIf issues, issues).

Definition openaiImageResult (p : path) (i : switch OpenaiImage) : parsed :=
  match i with
  | Disabled => (Valid, [])
  | Enabled o =>
      if enumMember sizes (oi_size o)
      then report (checkMinLength (p ++ [Key "style"]) (List.length (oi_style o)) (Some 1%nat))
      else (Aborted, [invalidUnion p])
  end.

Definition failing (holds : bool) (p : path) (msg : string) : list issue :=
  if holds then [] else [customIssue p msg].

Definition crossIssues (p : path) (v : SizeValue) : list issue :=
  failing (multiplesOf64 v) p msgMultiples
  ++ failing (validateSizeFor768 v) p msgSize768
  ++ failing (validateSizeForOtherEngines v) p msgSizeOther.

Definition fieldIssues (p : path) (i : ImageParams) : list issue :=
  checkNumbers (p ++ [Key "cfg_scale"]) (p_cfg_scale i) [Min 0; Max 35]
  ++ checkNumbers (p ++ [Key "samples"]) (p_samples i) [Min 1; Max 10]
  ++ checkNumbers (p ++ [Key "steps"]) (p_steps i) [Min 10; Max 50]
  ++ checkMinLength (p ++ [Key "style"]) (List.length (p_style i)) (Some 1%nat).

Definition imageResult (p : path) (i : switch ImageParams) : parsed :=
  match i with
  | Disabled => (Valid, [])
  | Enabled i =>
      if forallb (enumMember styles) (p_style i)
      then report (fieldIssues p i ++ crossIssues p (sizeOf i))
      else (Aborted, [invalidUnion p])
  end.

Definition stabilityaiResult (p : path) (s : optional Stabilityai) : parsed :=
  match s with
  | Absent | IsNull => (Valid, [])
  | Present s => imageResult (p ++ [Key "image"]) (s_image s)
  end.

Definition enumIssues (p : path) (values : list string) (x : string) : list issue :=
  if enumMember values x then [] else [invalidEnumValue p values x].

(** The issues of everything but the [stabilityai] property. *)
Definition baseIssues (c : Configuration) : list issue :=
  enumIssues [Key "logs"; Key "level"] levels (logs_level c)
  ++ checkNumbers [Key "image"; Key "interval"] (image_interval c) [Min 10]
  ++ enumIssues [Key "image"; Key "order"] orders (image_order c)
  ++ checkNumbers [Key "transcript"; Key "minimum"] (transcript_minimum c) [Min 1]
  ++ snd (openaiImageResult [Key "openai"; Key "image"] (openai_image c)).

Definition orUndefined (o : option value) : value :=
  match o with
  | Some v => v
  | None => VUndefined
  end.

(** The issues of a configuration, as [validate] walks them. *)
Definition violations (configuration : value) : list issue :=
  snd (parse schema [] configuration).

(** What the schema checks on a configuration with fields of the declared
    types, written as one boolean. *)
Definition acceptedParams (i : ImageParams) : bool :=
  forallb (enumMember styles) (p_style i)
  && between 0 35 (p_cfg_scale i)
  && between 1 10 (p_samples i)
  && between 10 50 (p_steps i)
  && negb (Nat.eqb (List.length (p_style i)) 0)
  && multiplesOf64 (sizeOf i)
  && validateSizeFor768 (sizeOf i)
  && validateSizeForOtherEngines (sizeOf i).

Definition acceptedStabilityai (s : optional Stabilityai) : bool :=
  match s with
  | Absent | IsNull => true
  | Present s =>
      match s_image s with
      | Disabled => true
      | Enabled i => acceptedParams i
      end
  end.

Definition acceptedBase (c : Configuration) : bool :=
  enumMember levels (logs_level c)
  && Qle_bool 10 (image_interval c)
  && enumMember orders (image_order c)
  && Qle_bool 1 (transcript_minimum c)
  && openaiImageRules (openai_image c).

Definition accepted (c : Configuration) : bool :=
  acceptedBase c && acceptedStabilityai (stabilityai_config c).

Definition withLevel (level : string) (c : Configuration) : Configuration :=
  mkConfiguration
    (Config.telemetry c) level (time_timezone c) (time_format c)
    (image_interval c) (image_order c)
    (transcript_cron c) (transcript_minutes c) (transcript_minimum c)
    (openai_key c) (summary_model c) (summary_prompt c) (summary_random c)
    (openai_image c) (stabilityai_config c) (system_port c) (storage_path c).

Definition withParams (i : ImageParams) (c : Configuration) : Configuration :=
  mkConfiguration
    (Config.telemetry c) (logs_level c) (time_timezone c) (time_format c)
    (image_interval c) (image_order c)
    (transcript_cron c) (transcript_minutes c) (transcript_minimum c)
    (openai_key c) (summary_model c) (summary_prompt c) (summary_random c)
    (openai_image c) (Present (mkStabilityai "sk" (Enabled i)))
    (system_port c) (storage_path c).

Definition sized (e : string) (w h : Q) : ImageParams :=
  mkImageParams e w h 30 7 1 30 ["enhance"%string].

(** A width that is not a multiple of 64 together with a style tag
    outside the enumeration. *)
Definition brokenParams : ImageParams :=
  mkImageParams "stable-diffusion-v1-5" 100 768 30 7 1 30 ["enhancer"%string].

(** A width that is not a multiple of 64 together with a [cfg_scale]
    above its range. *)
Definition doubleFault : ImageParams :=
  mkImageParams "stable-diffusion-v1-5" 100 768 30 70 1 30 ["enhance"%string].

(** Non-integer timeout, samples and steps. *)
Definition fractionalParams : ImageParams :=
  mkImageParams "stable-diffusion-512-v2-1" 512 512 (61 # 2) 7 (5 # 2) (41 # 2)
    ["enhance"%string].

(** An issue that, if it is a custom one, sits at [q]. *)
Definition customAt (q : path) (i : issue) : Prop := code i = custom -> ipath i = q.

Definition notCustom (i : issue) : Prop := code i <> custom.

Definition withField (key : string) (v : value) (o : value) : value :=
  match o with
  | VObj fields => VObj ((key, v) :: fields)
  | _ => o
  end.

Definition isNumber (v : value) : bool :=
  match v with
  | VNum _ => true
  | _ => false
  end.

Definition integerFields : list string :=
  ["width"; "height"; "timeout"; "samples"; "steps"]%string.

Definition disabledFields : list (string * value) :=
  [ ("telemetry", VStr "yes");
    ("stabilityai",
      VObj [ ("key", VNum 3); ("image", VBool false); ("width", VNum 100) ]) ]%string.

Definition isString (v : value) : bool :=
  match v with
  | VStr _ => true
  | _ => false
  end.

Definition numberBetween (lo hi : Q) (v : value) : bool :=
  match v with
  | VNum n => between lo hi n
  | _ => false
  end.

Definition isStyle (v : value) : bool :=
  match v with
  | VStr s => enumMember styles s
  | _ => false
  end.

Definition styleTags (v : value) : bool :=
  match v with
  | VArr items => negb (Nat.eqb (List.length items) 0) && forallb isStyle items
  | _ => false
  end.

(** A fully-populated parameter object satisfying the field rules and the
    three cross-field rules. *)
Definition paramsShape (v : value) : bool :=
  match v with
  | VObj fields =>
      isString (get fields "engine_id")
      && isNumber (get fields "width")
      && isNumber (get fields "height")
      && isNumber (get fields "timeout")
      && numberBetween 0 35 (get fields "cfg_scale")
      && numberBetween 1 10 (get fields "samples")
      && numberBetween 10 50 (get fields "steps")
      && styleTags (get fields "style")
      && multiplesOf64 (sizeValue v)
      && validateSizeFor768 (sizeValue v)
      && validateSizeForOtherEngines (sizeValue v)
  | _ => false
  end.

(** The image sub-config: the disabled sentinel or a parameter object. *)
Definition imageShape (v : value) : bool :=
  match v with
  | VBool false => true
  | _ => paramsShape v
  end.

(** The provider config: absent ([undefined] or [null]), or an object
    with a string key and an image sub-config. *)
Definition providerShape (v : value) : bool :=
  match v with
  | VUndefined | VNull => true
  | VObj fields => isString (get fields "key") && imageShape (get fields "image")
  | _ => false
  end.

(** Induction on schemas that reaches the schemas nested in the shape of
    an object and among the options of a union. *)
Section SchemaInduction.

Variable P : zschema -> Prop.
Hypothesis HBoolean : P ZBoolean.
Hypothesis HString : P ZString.
Hypothesis HNumber : forall checks, P (ZNumber checks).
Hypothesis HEnum : forall values, P (ZEnum values).
Hypothesis HLiteral : forall b, P (ZLiteral b).
Hypothesis HArray : forall element minLength, P element -> P (ZArray element minLength).
Hypothesis HObject : forall shape, Forall (fun ks => P (snd ks)) shape -> P (ZObject shape).
Hypothesis HUnion : forall options, Forall P options -> P (ZUnion options).
Hypothesis HEffects : forall inner f msg, P inner -> P (ZEffects inner f msg).
Hypothesis HOptional : forall inner, P inner -> P (ZOptional inner).
Hypothesis HNullable : forall inner, P inner -> P (ZNullable inner).

Fixpoint zschema_nested_ind (s : zschema) : P s :=
  match s with
  | ZBoolean => HBoolean
  | ZString => HString
  | ZNumber checks => HNumber checks
  | ZEnum values => HEnum values
  | ZLiteral b => HLiteral b
  | ZArray element minLength => HArray element minLength (zschema_nested_ind element)
  | ZObject shape =>
      HObject shape
        ((fix all (l : list (string * zschema)) : Forall (fun ks => P (snd ks)) l :=
            match l with
            | [] => Forall_nil _
            | ks :: rest => Forall_cons ks (zschema_nested_ind (snd ks)) (all rest)
            end) shape)
  | ZUnion options =>
      HUnion options
        ((fix all (l : list zschema) : Forall P l :=
            match l with
            | [] => Forall_nil _
            | o :: rest => Forall_cons o (zschema_nested_ind o) (all rest)
            end) options)
  | ZEffects inner f msg => HEffects inner f msg (zschema_nested_ind inner)
  | ZOptional inner => HOptional inner (zschema_nested_ind inner)
  | ZNullable inner => HNullable inner (zschema_nested_ind inner)
  end.

End SchemaInduction.

(** The result of an operation lies in the interval [lo, hi]. *)
Definition inside (lo hi : Q) (d : double) : Prop :=
  match d with
  | Finite q => lo <= q /\ q <= hi
  | Infinity _ => False
  end.

(** *** The rules, one by one, on an arbitrary configuration value *)

Definition booleanRule (p : path) (v : value) : list issue :=
  match v with
  | VBool _ => []
  | _ => [invalidType p "boolean" v]
  end.

Definition stringRule (p : path) (v : value) : list issue :=
  match v with
  | VStr _ => []
  | _ => [invalidType p "string" v]
  end.

Definition optionalStringRule (p : path) (v : value) : list issue :=
  match v with
  | VUndefined | VNull | VStr _ => []
  | _ => [invalidType p "string" v]
  end.

Definition numberRule (checks : list check) (p : path) (v : value) : list issue :=
  match v with
  | VNum n => checkNumbers p n checks
  | _ => [invalidType p "number" v]
  end.

Definition enumRule (values : list string) (p : path) (v : value) : list issue :=
  match v with
  | VStr x => enumIssues p values x
  | _ => [invalidType p (joinValues values) v]
  end.

Definition objectRule (p : path) (v : value)
    (inner : list (string * value) -> list issue) : list issue :=
  match v with
  | VObj fields => inner fields
  | _ => [invalidType p "object" v]
  end.

Definition asString (v : value) : option string :=
  match v with
  | VStr s => Some s
  | _ => None
  end.

Definition asNumber (v : value) : option Q :=
  match v with
  | VNum n => Some n
  | _ => None
  end.

Fixpoint allStrings (items : list value) : option (list string) :=
  match items with
  | [] => Some []
  | VStr s :: rest => option_map (cons s) (allStrings rest)
  | _ :: _ => None
  end.

Definition asStrings (v : value) : option (list string) :=
  match v with
  | VArr items => allStrings items
  | _ => None
  end.

Definition andThen {A B : Type} (o : option A) (f : A -> option B) : option B :=
  match o with
  | Some a => f a
  | None => None
  end.

Definition asOpenaiImage (v : value) : option OpenaiImage :=
  match v with
  | VObj fields =>
      andThen (asString (get fields "size")) (fun size =>
      andThen (asStrings (get fields "style")) (fun style =>
      Some (mkOpenaiImage size style)))
  | _ => None
  end.

Definition asParams (v : value) : option ImageParams :=
  match v with
  | VObj fields =>
      andThen (asString (get fields "engine_id")) (fun engine_id =>
      andThen (asNumber (get fields "width")) (fun width =>
      andThen (asNumber (get fields "height")) (fun height =>
      andThen (asNumber (get fields "timeout")) (fun timeout =>
      andThen (asNumber (get fields "cfg_scale")) (fun cfg_scale =>
      andThen (asNumber (get fields "samples")) (fun samples =>
      andThen (asNumber (get fields "steps")) (fun steps =>
      andThen (asStrings (get fields "style")) (fun style =>
      Some (mkImageParams engine_id width height timeout cfg_scale samples steps style)))))))))
  | _ => None
  end.

Definition asSwitch {A : Type} (typed : value -> option A) (v : value) : option (switch A) :=
  match v with
  | VBool false => Some Disabled
  | _ => option_map Enabled (typed v)
  end.

Definition openaiImageRule (p : path) (v : value) : list issue :=
  match asSwitch asOpenaiImage v with
  | Some i => snd (openaiImageResult p i)
  | None => [invalidUnion p]
  end.

Definition stabilityaiImageRule (p : path) (v : value) : list issue :=
  match asSwitch asParams v with
  | Some i => snd (imageResult p i)
  | None => [invalidUnion p]
  end.

Definition ruleIssues (configuration : value) : list issue :=
  objectRule [] configuration (fun fields =>
    booleanRule [Key "telemetry"] (get fields "telemetry")
    ++ objectRule [Key "logs"] (get fields "logs") (fun logs =>
         enumRule levels [Key "logs"; Key "level"] (get logs "level"))
    ++ objectRule [Key "time"] (get fields "time") (fun time =>
         stringRule [Key "time"; Key "timezone"] (get time "timezone")
         ++ optionalStringRule [Key "time"; Key "format"] (get time "format"))
    ++ objectRule [Key "image"] (get fields "image") (fun image =>
         numberRule [Min 10] [Key "image"; Key "interval"] (get image "interval")
         ++ enumRule orders [Key "image"; Key "order"] (get image "order"))
    ++ objectRule [Key "transcript"] (get fields "transcript") (fun transcript =>
         stringRule [Key "transcript"; Key "cron"] (get transcript "cron")
         ++ numberRule [] [Key "transcript"; Key "minutes"] (get transcript "minutes")
         ++ numberRule [Min 1] [Key "transcript"; Key "minimum"] (get transcript "minimum"))
    ++ objectRule [Key "openai"] (get fields "openai") (fun openai =>
         stringRule [Key "openai"; Key "key"] (get openai "key")
         ++ objectRule [Key "openai"; Key "summary"] (get openai "summary") (fun summary =>
              stringRule [Key "openai"; Key "summary"; Key "model"] (get summary "model")
              ++ stringRule [Key "openai"; Key "summary"; Key "prompt"] (get summary "prompt")
              ++ stringRule [Key "openai"; Key "summary"; Key "random"] (get summary "random"))
         ++ openaiImageRule [Key "openai"; Key "image"] (get openai "image"))
    ++ match get fields "stabilityai" with
       | VUndefined | VNull => []
       | provider =>
           objectRule [Key "stabilityai"] provider (fun stabilityai =>
             stringRule [Key "stabilityai"; Key "key"] (get stabilityai "key")
             ++ stabilityaiImageRule [Key "stabilityai"; Key "image"] (get stabilityai "image"))
       end
    ++ objectRule [Key "system"] (get fields "system") (fun system =>
         numberRule [] [Key "system"; Key "port"] (get system "port")
         ++ objectRule [Key "system"; Key "storage"] (get system "storage") (fun storage =>
              stringRule [Key "system"; Key "storage"; Key "path"] (get storage "path")))).

(** [v[key]], [undefined] when [v] is not an object. *)
Definition property (v : value) (key : string) : value :=
  match v with
  | VObj fields => get fields key
  | _ => VUndefined
  end.

(** A configuration with several faults at once: a property of the
    wrong type, a missing property, a range rule and two cross-field
    rules. *)
Definition faults : value :=
  VObj
    [ ("telemetry", VStr "yes");
      ("logs", VObj [ ("level", VStr "info") ]);
      ("time", VObj []);
      ("image", VObj [ ("interval", VNum 60); ("order", VStr "recent") ]);
      ("transcript",
        VObj [ ("cron", VStr "0 * * * *"); ("minutes", VNum 60); ("minimum", VNum 5) ]);
      ("openai",
        VObj [ ("key", VStr "sk");
               ("summary",
                 VObj [ ("model", VStr "gpt"); ("prompt", VStr "summarize");
                        ("random", VStr "pick") ]);
               ("image", VBool false) ]);
      ("stabilityai",
        VObj [ ("key", VStr "sk"); ("image", encodeParams doubleFault) ]);
      ("system", VObj [ ("port", VNum 3000); ("storage", VObj [ ("path", VStr "/.storage") ]) ]) ].

(** *** Definitions for the further properties *)

(** The shape of [schema], entry by entry. *)
Definition sections : list (string * zschema) :=
  match schema with
  | ZObject shape => shape
  | _ => []
  end.

(** The top-level properties that may not be missing. *)
Definition requiredSections : list string :=
  ["telemetry"; "logs"; "time"; "image"; "transcript"; "openai"; "system"]%string.

Definition isObject (v : value) : bool :=
  match v with
  | VObj _ => true
  | _ => false
  end.

Definition segment_eqb (a b : segment) : bool :=
  match a, b with
  | Key x, Key y => String.eqb x y
  | Idx i, Idx j => Nat.eqb i j
  | _, _ => false
  end.

Fixpoint isPrefix (p q : path) : bool :=
  match p, q with
  | [], _ => true
  | a :: p', b :: q' => segment_eqb a b && isPrefix p' q'
  | _ :: _, [] => false
  end.

(** The issue lies at or below the path [p]. *)
Definition under (p : path) (x : issue) : bool := isPrefix p (ipath x).

Definition isStringArray (v : value) : bool :=
  match v with
  | VArr items => negb (Nat.eqb (List.length items) 0) && forallb isString items
  | _ => false
  end.

(** The image sub-config of the text-generation provider: the literal
    [false], or an object with a size of the enumeration and a style that
    is a non-empty array of strings. *)
Definition openaiImageShape (v : value) : bool :=
  match v with
  | VBool false => true
  | VObj fields =>
      match get fields "size" with
      | VStr s => enumMember sizes s
      | _ => false
      end
      && isStringArray (get fields "style")
  | _ => false
  end.

(** The parameters with width and height exchanged, and with both
    negated. *)
Definition swapped (i : ImageParams) : ImageParams :=
  mkImageParams (p_engine_id i) (p_height i) (p_width i) (p_timeout i)
    (p_cfg_scale i) (p_samples i) (p_steps i) (p_style i).

Definition negated (i : ImageParams) : ImageParams :=
  mkImageParams (p_engine_id i) (- p_width i) (- p_height i) (p_timeout i)
    (p_cfg_scale i) (p_samples i) (p_steps i) (p_style i).

(** The properties of the sections that may not be missing, as pairs of
    the section and the property. *)
Definition requiredFields : list (string * string) :=
  [ ("logs", "level"); ("time", "timezone");
    ("image", "interval"); ("image", "order");
    ("transcript", "cron"); ("transcript", "minutes"); ("transcript", "minimum");
    ("openai", "key"); ("openai", "summary");
    ("system", "port"); ("system", "storage") ]%string.

Definition isNullish (v : value) : bool :=
  match v with
  | VUndefined | VNull => true
  | _ => false
  end.

(** A string that [toLowerCase] leaves as it is. *)
Definition isLower (s : string) : bool := String.eqb (toLowerCase s) s.

Definition lowerSegment (g : segment) : bool :=
  match g with
  | Key k => isLower k
  | Idx _ => true
  end.

(** Every key of the shapes of a schema is lower-case. *)
Fixpoint lowerKeys (s : zschema) : bool :=
  match s with
  | ZArray element _ => lowerKeys element
  | ZObject shape => forallb (fun ks => isLower (fst ks) && lowerKeys (snd ks)) shape
  | ZUnion options => forallb lowerKeys options
  | ZEffects inner _ _ => lowerKeys inner
  | ZOptional inner => lowerKeys inner
  | ZNullable inner => lowerKeys inner
  | _ => true
  end.

(* ================================================================= *)
(** ** Arithmetic of the number model *)

Section Numbers.

Lemma lt_true (a b : Q) : lt a b = true <-> a < b.
Proof.
  unfold lt. rewrite negb_true_iff.
  split; intro H.
  - apply Qnot_le_lt. intro Hle. apply Qle_bool_iff in Hle. congruence.
  - destruct (Qle_bool b a) eqn:E; [|reflexivity].
    apply Qle_bool_iff in E. exfalso. exact (Qlt_not_le _ _ H E).
Qed.

Lemma lt_false (a b : Q) : lt a b = false <-> b <= a.
Proof.
  unfold lt. rewrite negb_false_iff. apply Qle_bool_iff.
Qed.

Lemma gt_false (a b : Q) : gt a b = false <-> a <= b.
Proof. unfold gt. apply lt_false. Qed.

Lemma trunc_integer (q : Q) (k : Z) : q == inject_Z k -> trunc q = k.
Proof.
  unfold Qeq, trunc. cbn [Qnum Qden inject_Z]. intro H.
  rewrite Z.mul_1_r in H. rewrite H. apply Z.quot_mul. discriminate.
Qed.

(** [n % 64 === 0] holds exactly for the integer multiples of 64. *)
Lemma rem64_zero (n : Q) :
  Qeq_bool (rem n 64) 0 = true <-> exists k : Z, n == inject_Z (64 * k).
Proof.
  rewrite Qeq_bool_iff. unfold rem. split.
  - intro H. exists (trunc (n / 64)).
    rewrite inject_Z_mult.
    setoid_replace n with (n - 64 * inject_Z (trunc (n / 64)) + 64 * inject_Z (trunc (n / 64))) at 1 by ring.
    rewrite H. ring.
  - intros [k Hk].
    assert (Ht : trunc (n / 64) = k).
    { apply trunc_integer. rewrite Hk, inject_Z_mult. field. }
    rewrite Ht, Hk, inject_Z_mult. ring.
Qed.

Lemma isInteger_floor (n : Q) : isInteger n = true -> n == inject_Z (Qfloor n).
Proof. unfold isInteger. apply Qeq_bool_iff. Qed.

Lemma between_true (lo hi n : Q) : between lo hi n = true <-> lo <= n /\ n <= hi.
Proof. unfold between. rewrite andb_true_iff, !Qle_bool_iff. reflexivity. Qed.

(** *** The binary64 product of integers *)

Lemma binary64_comp (a b : Q) : a == b -> binary64 a = binary64 b.
Proof. intro H. unfold binary64. rewrite (Qred_complete a b H). reflexivity. Qed.

Lemma Qred_integer (z : Z) : Qred (inject_Z z) = inject_Z z.
Proof.
  unfold Qred, inject_Z.
  pose proof (Z.ggcd_gcd z 1) as Hg. pose proof (Z.ggcd_correct_divisors z 1) as Hd.
  destruct (Z.ggcd z 1) as [g [a b]]. cbn [fst snd] in *.
  rewrite Z.gcd_1_r in Hg. subst g. destruct Hd as [Ha Hb].
  rewrite Z.mul_1_l in Ha, Hb. subst a b. reflexivity.
Qed.

Lemma nearestEven_comp (x y : Q) : x == y -> nearestEven x = nearestEven y.
Proof.
  intro H. unfold nearestEven. rewrite (Qfloor_comp x y H).
  assert (E : x - inject_Z (Qfloor y) == y - inject_Z (Qfloor y)) by (rewrite H; reflexivity).
  rewrite (Qcompare_comp _ _ E (1 # 2) (1 # 2) (Qeq_refl _)). reflexivity.
Qed.

Lemma nearestEven_integer (n : Z) : nearestEven (inject_Z n) = n.
Proof.
  unfold nearestEven. rewrite Qfloor_Z.
  assert (E : inject_Z n - inject_Z n == 0) by ring.
  rewrite (Qcompare_comp _ _ E (1 # 2) (1 # 2) (Qeq_refl _)). reflexivity.
Qed.

Lemma nearestEven_floor (x : Q) : (Qfloor x <= nearestEven x)%Z.
Proof.
  unfold nearestEven. destruct (Qcompare _ _); [destruct (Z.even _)| |]; lia.
Qed.

Lemma power2 (k : Z) : (0 <= k)%Z -> 2 ^ k == inject_Z (2 ^ k).
Proof. intro H. symmetry. apply (Zpower_Qpower 2 k H). Qed.

Lemma power2_pos (k : Z) : 0 < 2 ^ k.
Proof. apply Qpower_0_lt. reflexivity. Qed.

Lemma ilog2_integer (n : Z) : (0 < n)%Z -> ilog2 (inject_Z n) = Z.log2 n.
Proof.
  intro H.
  assert (E : Qle_bool (2 ^ Z.log2 n) (inject_Z n) = true).
  { apply Qle_bool_iff. rewrite power2 by apply Z.log2_nonneg.
    rewrite <- Zle_Qle. apply Z.log2_spec, H. }
  unfold ilog2. cbn [Qnum Qden inject_Z]. change (Z.log2 1) with 0%Z.
  rewrite Z.sub_0_r, E. reflexivity.
Qed.

Lemma exponent_small (n : Z) :
  (0 < n < 2 ^ 53)%Z -> exists k : Z, (0 <= k <= 52)%Z /\ exponent (inject_Z n) = (- k)%Z.
Proof.
  intros [H0 H1]. unfold exponent. rewrite (ilog2_integer n H0).
  assert (Hl : (0 <= Z.log2 n < 53)%Z).
  { split; [apply Z.log2_nonneg|]. apply Z.log2_lt_pow2; [exact H0 | exact H1]. }
  exists (52 - Z.log2 n)%Z. split; lia.
Qed.

Lemma magnitude_small (n : Z) : (0 < n < 2 ^ 53)%Z -> magnitude (inject_Z n) == inject_Z n.
Proof.
  intro H. unfold magnitude. destruct (exponent_small n H) as [k [Hk ->]].
  assert (E : inject_Z n / 2 ^ (- k) == inject_Z (n * 2 ^ k)).
  { rewrite Qpower_opp, inject_Z_mult, <- (power2 k) by lia.
    unfold Qdiv. rewrite Qinv_involutive. reflexivity. }
  rewrite (nearestEven_comp _ _ E), nearestEven_integer.
  rewrite inject_Z_mult, <- (power2 k) by lia. rewrite Qpower_opp.
  field. apply Qpower_not_0. discriminate.
Qed.

Lemma magnitude_large (n : Z) : (2 ^ 53 <= n)%Z -> inject_Z (2 ^ 53) <= magnitude (inject_Z n).
Proof.
  intro H. assert (H0 : (0 < n)%Z) by lia.
  unfold magnitude, exponent. rewrite (ilog2_integer n H0).
  assert (Hl : (53 <= Z.log2 n)%Z) by (apply Z.log2_le_pow2; lia).
  rewrite Z.max_l by lia. set (e := (Z.log2 n - 52)%Z).
  assert (He : (1 <= e)%Z) by (unfold e; lia).
  assert (Hq : inject_Z (2 ^ 52) <= inject_Z n / 2 ^ e).
  { apply Qle_shift_div_l; [apply power2_pos|].
    rewrite (power2 e) by lia. rewrite <- inject_Z_mult, <- Zle_Qle.
    rewrite <- Z.pow_add_r by lia. replace (52 + e)%Z with (Z.log2 n) by (unfold e; lia).
    apply Z.log2_spec, H0. }
  apply Qfloor_resp_le in Hq. rewrite Qfloor_Z in Hq.
  pose proof (nearestEven_floor (inject_Z n / 2 ^ e)) as Hm.
  revert Hq Hm. generalize (nearestEven (inject_Z n / 2 ^ e)).
  generalize (Qfloor (inject_Z n / 2 ^ e)). intros f m Hq Hm.
  rewrite (power2 e) by lia. rewrite <- inject_Z_mult, <- Zle_Qle.
  assert (Hp : (2 <= 2 ^ e)%Z).
  { change 2%Z with (2 ^ 1)%Z at 1. apply Z.pow_le_mono_r; lia. }
  change (2 ^ 53)%Z with (2 ^ 52 * 2)%Z.
  apply Z.mul_le_mono_nonneg; lia.
Qed.

Lemma lt_comp (a a' b b' : Q) : a == a' -> b == b' -> lt a b = lt a' b'.
Proof. intros Ha Hb. unfold lt. rewrite Ha, Hb. reflexivity. Qed.

Lemma lt_integers (a b : Z) : lt (inject_Z a) (inject_Z b) = (a <? b)%Z.
Proof.
  unfold lt. destruct (a <? b)%Z eqn:E.
  - apply negb_true_iff. destruct (Qle_bool _ _) eqn:F; [|reflexivity].
    apply Qle_bool_iff in F. rewrite <- Zle_Qle in F. apply Z.ltb_lt in E. lia.
  - apply negb_false_iff, Qle_bool_iff. rewrite <- Zle_Qle. apply Z.ltb_ge in E. exact E.
Qed.

(** The product of two integers, as binary64 computes it, compares
    with an integer bound below 2^53 as the exact product does. *)
Lemma compare_integer (z b : Z) :
  (0 < b < 2 ^ 53)%Z ->
  lessThan (binary64 (inject_Z z)) (inject_Z b) = (z <? b)%Z
  /\ greaterThan (binary64 (inject_Z z)) (inject_Z b) = (b <? z)%Z.
Proof.
  intro Hb. unfold binary64. rewrite Qred_integer.
  destruct (Z.eq_dec z 0) as [->|Hz].
  { change (Qeq_bool (inject_Z 0) 0) with true. cbn [lessThan greaterThan].
    unfold gt. change 0 with (inject_Z 0). rewrite !lt_integers. split; reflexivity. }
  assert (Hne : Qeq_bool (inject_Z z) 0 = false).
  { destruct (Qeq_bool (inject_Z z) 0) eqn:E; [|reflexivity].
    apply Qeq_bool_iff in E. change 0 with (inject_Z 0) in E.
    exfalso. apply Hz. apply (proj1 (inject_Z_injective z 0)). exact E. }
  rewrite Hne.
  assert (Ha : Qabs (inject_Z z) = inject_Z (Z.abs z)) by reflexivity.
  rewrite Ha. set (r := magnitude (inject_Z (Z.abs z))).
  assert (Hs : negb (Qle_bool 0 (inject_Z z)) = (z <? 0)%Z).
  { change 0 with (inject_Z 0). apply (lt_integers z 0). }
  rewrite Hs.
  destruct (Z_lt_le_dec (Z.abs z) (2 ^ 53)) as [Hsmall|Hlarge].
  - assert (Hr : r == inject_Z (Z.abs z)) by (apply magnitude_small; lia).
    assert (Ho : Qle_bool (2 ^ 1024) r = false).
    { destruct (Qle_bool (2 ^ 1024) r) eqn:E; [|reflexivity].
      apply Qle_bool_iff in E. rewrite Hr, (power2 1024) in E by lia.
      rewrite <- Zle_Qle in E.
      assert ((2 ^ 53 < 2 ^ 1024)%Z) by (apply Z.pow_lt_mono_r; lia). lia. }
    rewrite Ho. cbn [lessThan greaterThan]. unfold gt.
    destruct (z <? 0)%Z eqn:En.
    + apply Z.ltb_lt in En.
      assert (Hz' : - r == inject_Z z).
      { rewrite Hr, <- inject_Z_opp. f_equiv. lia. }
      rewrite (lt_comp _ _ _ _ Hz' (Qeq_refl _)), (lt_comp _ _ _ _ (Qeq_refl _) Hz').
      rewrite !lt_integers. split; reflexivity.
    + apply Z.ltb_ge in En.
      assert (Hz' : r == inject_Z z).
      { rewrite Hr. f_equiv. lia. }
      rewrite (lt_comp _ _ _ _ Hz' (Qeq_refl _)), (lt_comp _ _ _ _ (Qeq_refl _) Hz').
      rewrite !lt_integers. split; reflexivity.
  - assert (Hr : inject_Z (2 ^ 53) <= r) by (apply magnitude_large; exact Hlarge).
    assert (Hb' : inject_Z b < inject_Z (2 ^ 53)) by (rewrite <- Zlt_Qlt; lia).
    destruct (z <? 0)%Z eqn:En.
    + apply Z.ltb_lt in En.
      replace (z <? b)%Z with true by (symmetry; apply Z.ltb_lt; lia).
      replace (b <? z)%Z with false by (symmetry; apply Z.ltb_ge; lia).
      destruct (Qle_bool (2 ^ 1024) r); cbn [lessThan greaterThan negb];
        [split; reflexivity|].
      unfold gt. split.
      * apply lt_true. apply Qlt_trans with 0.
        -- apply Qopp_lt_compat with (p := 0) (q := r).
           apply Qlt_le_trans with (inject_Z (2 ^ 53)); [reflexivity | exact Hr].
        -- change 0 with (inject_Z 0). rewrite <- Zlt_Qlt. lia.
      * apply lt_false. apply Qle_trans with 0.
        -- apply (Qopp_le_compat 0 r).
           apply Qle_trans with (inject_Z (2 ^ 53)); [discriminate | exact Hr].
        -- change 0 with (inject_Z 0). rewrite <- Zle_Qle. lia.
    + apply Z.ltb_ge in En.
      replace (z <? b)%Z with false by (symmetry; apply Z.ltb_ge; lia).
      replace (b <? z)%Z with true by (symmetry; apply Z.ltb_lt; lia).
      destruct (Qle_bool (2 ^ 1024) r); cbn [lessThan greaterThan negb];
        [split; reflexivity|].
      unfold gt. split.
      * apply lt_false. apply Qle_trans with (inject_Z (2 ^ 53)); [|exact Hr].
        apply Qlt_le_weak, Hb'.
      * apply lt_true. apply Qlt_le_trans with (inject_Z (2 ^ 53)); [exact Hb' | exact Hr].
Qed.

(** *** Rounding and the bounds of the size rules *)

Lemma ilog2_spec (a : Q) : 0 < a -> 2 ^ ilog2 a <= a /\ a < 2 ^ (ilog2 a + 1).
Proof.
  intro Ha. destruct a as [n d]. assert (Hn : (0 < n)%Z).
  { unfold Qlt in Ha. cbn in Ha. lia. }
  unfold ilog2. cbn [Qnum Qden].
  set (ln := Z.log2 n). set (ld := Z.log2 (Z.pos d)).
  assert (Hln : (0 <= ln)%Z) by apply Z.log2_nonneg.
  assert (Hld : (0 <= ld)%Z) by apply Z.log2_nonneg.
  destruct (Z.log2_spec n Hn) as [Hn1 Hn2]. fold ln in Hn1, Hn2.
  destruct (Z.log2_spec (Z.pos d) (Pos2Z.is_pos d)) as [Hd1 Hd2]. fold ld in Hd1, Hd2.
  assert (Hp : forall k, 2 ^ (k - ld) == 2 ^ k / inject_Z (2 ^ ld)).
  { intro k. rewrite Qpower_minus by discriminate. rewrite (power2 ld Hld). reflexivity. }
  assert (Hpos : 0 < inject_Z (2 ^ ld)).
  { rewrite <- (power2 ld Hld). apply power2_pos. }
  assert (Hup : n # d < 2 ^ (ln - ld + 1)).
  { replace (ln - ld + 1)%Z with ((ln + 1) - ld)%Z by lia. rewrite Hp.
    apply Qlt_shift_div_l; [exact Hpos|]. rewrite (power2 (ln + 1)) by lia.
    change (Z.succ ln) with (ln + 1)%Z in Hn2.
    unfold Qlt, Qmult, inject_Z. cbn [Qnum Qden]. nia. }
  assert (Hlow : 2 ^ (ln - ld - 1) < n # d).
  { replace (ln - ld - 1)%Z with (ln - (ld + 1))%Z by lia.
    rewrite Qpower_minus by discriminate.
    apply Qlt_shift_div_r; [apply power2_pos|].
    rewrite (power2 ln Hln), (power2 (ld + 1)) by lia.
    change (Z.succ ld) with (ld + 1)%Z in Hd2.
    unfold Qlt, Qmult, inject_Z. cbn [Qnum Qden]. nia. }
  destruct (Qle_bool (2 ^ (ln - ld)) (n # d)) eqn:E.
  - apply Qle_bool_iff in E. split; assumption.
  - split.
    + apply Qlt_le_weak. exact Hlow.
    + replace (ln - ld - 1 + 1)%Z with (ln - ld)%Z by lia.
      apply Qnot_le_lt. intro H. apply Qle_bool_iff in H. congruence.
Qed.

Lemma ilog2_mono (a b : Q) : 0 < a -> a <= b -> (ilog2 a <= ilog2 b)%Z.
Proof.
  intros Ha Hab. assert (Hb : 0 < b) by (apply Qlt_le_trans with a; assumption).
  destruct (ilog2_spec a Ha) as [H1 _]. destruct (ilog2_spec b Hb) as [_ H2].
  assert (H : 2 ^ ilog2 a < 2 ^ (ilog2 b + 1)).
  { apply Qle_lt_trans with a; [exact H1|]. apply Qle_lt_trans with b; assumption. }
  apply Qpower_lt_compat_l_inv in H; [lia | reflexivity].
Qed.

Lemma exponent_mono (a b : Q) : 0 < a -> a <= b -> (exponent a <= exponent b)%Z.
Proof.
  intros Ha Hab. unfold exponent. pose proof (ilog2_mono a b Ha Hab). lia.
Qed.

Lemma nearestEven_le (x : Q) (n : Z) : x <= inject_Z n -> (nearestEven x <= n)%Z.
Proof.
  intro H. pose proof (Qfloor_resp_le _ _ H) as Hf. rewrite Qfloor_Z in Hf.
  unfold nearestEven.
  assert (Hhalf : 1 # 2 <= x - inject_Z (Qfloor x) -> (Qfloor x + 1 <= n)%Z).
  { intro Hh. assert (Hlt : inject_Z (Qfloor x) < inject_Z n).
    { apply Qlt_le_trans with x; [|exact H].
      apply Qlt_minus_iff. apply Qlt_le_trans with (1 # 2); [reflexivity|].
      setoid_replace (x + - inject_Z (Qfloor x)) with (x - inject_Z (Qfloor x)) by ring.
      exact Hh. }
    rewrite <- Zlt_Qlt in Hlt. lia. }
  destruct (Qcompare (x - inject_Z (Qfloor x)) (1 # 2)) eqn:E.
  - apply Qeq_alt in E. destruct (Z.even (Qfloor x)); [exact Hf|].
    apply Hhalf. rewrite E. apply Qle_refl.
  - exact Hf.
  - apply Qgt_alt in E. apply Hhalf. apply Qlt_le_weak. exact E.
Qed.

Lemma magnitude_le (a : Q) (c t : Z) :
  0 < a -> a <= inject_Z c * 2 ^ t -> (exponent a <= t)%Z ->
  magnitude a <= inject_Z c * 2 ^ t.
Proof.
  intros Ha Hle He. unfold magnitude. set (e := exponent a) in *.
  assert (Hs : inject_Z c * 2 ^ t == inject_Z (c * 2 ^ (t - e)) * 2 ^ e).
  { rewrite inject_Z_mult, <- (power2 (t - e)) by lia.
    rewrite <- Qmult_assoc, <- Qpower_plus by discriminate.
    replace (t - e + e)%Z with t by lia. reflexivity. }
  rewrite Hs in *. apply Qmult_le_compat_r; [|apply Qlt_le_weak, power2_pos].
  rewrite <- Zle_Qle. apply nearestEven_le.
  apply Qle_shift_div_r; [apply power2_pos | exact Hle].
Qed.

Lemma magnitude_ge (a : Q) (c t : Z) :
  (0 < c < 2 ^ 53)%Z -> (-1074 <= t)%Z ->
  inject_Z c * 2 ^ t <= a -> (t <= exponent a)%Z ->
  inject_Z c * 2 ^ t <= magnitude a.
Proof.
  intros Hc Ht Hle He.
  assert (Ha : 0 < a).
  { apply Qlt_le_trans with (inject_Z c * 2 ^ t); [|exact Hle].
    apply Qmult_lt_0_compat; [|apply power2_pos].
    change 0 with (inject_Z 0). rewrite <- Zlt_Qlt. lia. }
  unfold magnitude. set (e := exponent a) in *.
  pose proof (nearestEven_floor (a / 2 ^ e)) as Hm.
  destruct (Z.eq_dec e t) as [E|E].
  - rewrite E in *. apply Qmult_le_compat_r; [|apply Qlt_le_weak, power2_pos].
    rewrite <- Zle_Qle. apply Z.le_trans with (Qfloor (a / 2 ^ t)); [|exact Hm].
    rewrite <- (Qfloor_Z c). apply Qfloor_resp_le.
    apply Qle_shift_div_l; [apply power2_pos | exact Hle].
  - assert (Hn : e = (ilog2 a - 52)%Z) by (unfold e, exponent in *; lia).
    assert (Hf : (2 ^ 52 <= Qfloor (a / 2 ^ e))%Z).
    { rewrite <- (Qfloor_Z (2 ^ 52)). apply Qfloor_resp_le.
      apply Qle_shift_div_l; [apply power2_pos|].
      rewrite <- (power2 52) by lia. rewrite <- Qpower_plus by discriminate.
      replace (52 + e)%Z with (ilog2 a) by lia. apply (ilog2_spec a Ha). }
    apply Qle_trans with (inject_Z (2 ^ 52) * 2 ^ e).
    + apply Qle_trans with (inject_Z (2 ^ 53) * 2 ^ t).
      * apply Qmult_le_compat_r; [|apply Qlt_le_weak, power2_pos].
        rewrite <- Zle_Qle. lia.
      * rewrite <- !power2 by lia. rewrite <- !Qpower_plus by discriminate.
        apply Qpower_le_compat_l; [lia | discriminate].
    + apply Qmult_le_compat_r; [|apply Qlt_le_weak, power2_pos].
      rewrite <- Zle_Qle. lia.
Qed.

Lemma magnitude_nonneg (a : Q) : 0 < a -> 0 <= magnitude a.
Proof.
  intro Ha. unfold magnitude. apply Qmult_le_0_compat; [|apply Qlt_le_weak, power2_pos].
  change 0 with (inject_Z 0). rewrite <- Zle_Qle.
  apply Z.le_trans with (Qfloor (a / 2 ^ exponent a)); [|apply nearestEven_floor].
  rewrite <- (Qfloor_Z 0). apply Qfloor_resp_le.
  apply Qle_shift_div_l; [apply power2_pos|]. rewrite Qmult_0_l. apply Qlt_le_weak, Ha.
Qed.

(** Rounding does not cross a bound that binary64 represents. *)
Lemma rounding_bound (x b : Q) (c : Z) :
  (0 < c < 2 ^ 53)%Z ->
  b == inject_Z c * 2 ^ exponent b ->
  b < 2 ^ 1024 ->
  (x <= b -> greaterThan (binary64 x) b = false)
  /\ (b <= x -> lessThan (binary64 x) b = false).
Proof.
  intros Hc Hb Hmax.
  assert (Hb0 : 0 < b).
  { rewrite Hb. apply Qmult_lt_0_compat; [|apply power2_pos].
    change 0 with (inject_Z 0). rewrite <- Zlt_Qlt. lia. }
  assert (Ht : (-1074 <= exponent b)%Z) by (unfold exponent; lia).
  unfold binary64. pose proof (Qred_correct x) as Hx. revert Hx.
  generalize (Qred x). intros y Hy.
  destruct (Qeq_bool y 0) eqn:E0.
  { apply Qeq_bool_iff in E0. cbn [greaterThan lessThan]. split; intro H.
    - apply gt_false. apply Qlt_le_weak, Hb0.
    - exfalso. rewrite <- Hy, E0 in H. exact (Qlt_not_le _ _ Hb0 H). }
  assert (Hne : ~ y == 0).
  { intro H. apply Qeq_bool_iff in H. congruence. }
  destruct (Qle_bool 0 y) eqn:Es; cbn [negb].
  - apply Qle_bool_iff in Es.
    assert (Hpos : 0 < y).
    { apply Qle_lteq in Es. destruct Es as [Es|Es]; [exact Es|].
      exfalso. apply Hne. symmetry. exact Es. }
    assert (Ha : Qabs y == x) by (rewrite Qabs_pos by exact Es; exact Hy).
    assert (Ha0 : 0 < Qabs y) by (rewrite Ha, <- Hy; exact Hpos).
    revert Ha Ha0. generalize (Qabs y). intros a Ha Ha0. split; intro H.
    + assert (Hr : magnitude a <= b).
      { rewrite Hb. apply magnitude_le; [exact Ha0| |].
        - rewrite <- Hb, Ha. exact H.
        - apply exponent_mono; [exact Ha0 | rewrite Ha; exact H]. }
      destruct (Qle_bool (2 ^ 1024) (magnitude a)) eqn:Eo.
      * exfalso. apply Qle_bool_iff in Eo.
        apply (Qlt_irrefl b). apply Qlt_le_trans with (2 ^ 1024); [exact Hmax|].
        apply Qle_trans with (magnitude a); assumption.
      * cbn [greaterThan]. apply gt_false. exact Hr.
    + assert (Hr : b <= magnitude a).
      { rewrite Hb. apply magnitude_ge; [exact Hc | exact Ht | |].
        - rewrite <- Hb, Ha. exact H.
        - apply exponent_mono; [exact Hb0 | rewrite Ha; exact H]. }
      destruct (Qle_bool (2 ^ 1024) (magnitude a)); cbn [lessThan]; [reflexivity|].
      apply lt_false. exact Hr.
  - assert (Hneg : y < 0).
    { apply Qnot_le_lt. intro H. apply Qle_bool_iff in H. congruence. }
    assert (Ha0 : 0 < Qabs y).
    { rewrite Qabs_neg by (apply Qlt_le_weak; exact Hneg).
      apply (Qopp_lt_compat y 0). exact Hneg. }
    pose proof (magnitude_nonneg _ Ha0) as Hr. split; intro H.
    + destruct (Qle_bool (2 ^ 1024) (magnitude (Qabs y))); cbn [greaterThan negb];
        [reflexivity|].
      apply gt_false. apply Qle_trans with 0; [|apply Qlt_le_weak, Hb0].
      apply (Qopp_le_compat 0 _). exact Hr.
    + exfalso. rewrite <- Hy in H. apply (Qlt_irrefl 0).
      apply Qlt_le_trans with b; [exact Hb0|]. apply Qle_trans with y; [exact H|].
      apply Qlt_le_weak, Hneg.
Qed.

End Numbers.

(* ================================================================= *)
(** ** The cross-field predicates *)

Lemma outside_false (d : double) (lo hi : Q) :
  lessThan d lo || greaterThan d hi = false <-> inside lo hi d.
Proof.
  destruct d as [q|negative]; cbn [lessThan greaterThan inside].
  - rewrite orb_false_iff, lt_false, gt_false. reflexivity.
  - destruct negative; cbn; intuition discriminate.
Qed.

(** For an engine identifier containing "768" the first predicate accepts
    exactly the products in [589824, 1048576] and the second accepts
    everything; for any other identifier it is the other way round, with
    [262144, 1048576]. *)
Lemma size_predicates (v : SizeValue) :
  let size := times (width v) (height v) in
  if includes "768" (engine_id v)
  then (validateSizeFor768 v = true <-> inside 589824 1048576 size)
       /\ validateSizeForOtherEngines v = true
  else (validateSizeForOtherEngines v = true <-> inside 262144 1048576 size)
       /\ validateSizeFor768 v = true.
Proof.
  intro size. unfold validateSizeFor768, validateSizeForOtherEngines.
  fold size. destruct (includes "768" (engine_id v)); cbn [andb negb Bool.eqb];
    (split; [|reflexivity]);
    rewrite negb_true_iff; apply outside_false.
Qed.

Lemma times_integers (w h : Q) (a b : Z) :
  w == inject_Z a -> h == inject_Z b -> times w h = binary64 (inject_Z (a * b)).
Proof.
  intros Hw Hh. unfold times. apply binary64_comp.
  rewrite Hw, Hh, inject_Z_mult. reflexivity.
Qed.

(** On integers the rounded product is outside an interval of integers
    below 2^53 exactly when the exact product is. *)
Lemma outside_integers (w h : Q) (a b lo hi : Z) :
  w == inject_Z a -> h == inject_Z b ->
  (0 < lo < 2 ^ 53)%Z -> (0 < hi < 2 ^ 53)%Z ->
  lessThan (times w h) (inject_Z lo) || greaterThan (times w h) (inject_Z hi) = false
  <-> inject_Z lo <= w * h /\ w * h <= inject_Z hi.
Proof.
  intros Hw Hh Hlo Hhi. rewrite (times_integers w h a b Hw Hh).
  destruct (compare_integer (a * b) lo Hlo) as [-> _].
  destruct (compare_integer (a * b) hi Hhi) as [_ ->].
  rewrite Hw, Hh, <- inject_Z_mult, <- !Zle_Qle, orb_false_iff, !Z.ltb_ge. reflexivity.
Qed.

(** The same on integer width and height, with the exact area. *)
Lemma size_predicates_integer (v : SizeValue) (a b : Z) :
  width v == inject_Z a -> height v == inject_Z b ->
  let size := width v * height v in
  if includes "768" (engine_id v)
  then (validateSizeFor768 v = true <-> 589824 <= size /\ size <= 1048576)
       /\ validateSizeForOtherEngines v = true
  else (validateSizeForOtherEngines v = true <-> 262144 <= size /\ size <= 1048576)
       /\ validateSizeFor768 v = true.
Proof.
  intros Hw Hh size. unfold validateSizeFor768, validateSizeForOtherEngines, size.
  destruct (includes "768" (engine_id v)); cbn [andb negb Bool.eqb];
    (split; [|reflexivity]); rewrite negb_true_iff.
  - apply (outside_integers _ _ a b 589824 1048576 Hw Hh); split; reflexivity.
  - apply (outside_integers _ _ a b 262144 1048576 Hw Hh); split; reflexivity.
Qed.

(** An exact product inside an interval whose bounds binary64 represents
    is still inside once rounded. *)
Lemma inside_rounded (w h lo hi : Q) (l u : Z) :
  (0 < l < 2 ^ 53)%Z -> lo == inject_Z l * 2 ^ exponent lo -> lo < 2 ^ 1024 ->
  (0 < u < 2 ^ 53)%Z -> hi == inject_Z u * 2 ^ exponent hi -> hi < 2 ^ 1024 ->
  lo <= w * h /\ w * h <= hi -> inside lo hi (times w h).
Proof.
  intros Hl Hlo Hlm Hu Hhi Hhm [H1 H2]. apply outside_false. unfold times.
  destruct (rounding_bound (w * h) lo l Hl Hlo Hlm) as [_ ->]; [|exact H1].
  destruct (rounding_bound (w * h) hi u Hu Hhi Hhm) as [-> _]; [|exact H2].
  reflexivity.
Qed.

(** Whatever the width and the height, an exact area inside the interval
    of a predicate, bounds included, satisfies it. *)
Lemma size_predicates_inside (v : SizeValue) :
  let size := width v * height v in
  (589824 <= size /\ size <= 1048576 -> validateSizeFor768 v = true)
  /\ (262144 <= size /\ size <= 1048576 -> validateSizeForOtherEngines v = true).
Proof.
  intro size. pose proof (size_predicates v) as H. cbv zeta in H. unfold size.
  split; intro Hin.
  - destruct (includes "768" (engine_id v)); [|exact (proj2 H)].
    apply (proj1 H).
    apply (inside_rounded _ _ 589824 1048576 (589824 * 2 ^ 33) (2 ^ 52));
      first [exact Hin | repeat split].
  - destruct (includes "768" (engine_id v)); [exact (proj2 H)|].
    apply (proj1 H).
    apply (inside_rounded _ _ 262144 1048576 (2 ^ 52) (2 ^ 52));
      first [exact Hin | repeat split].
Qed.

Lemma false_iff_not (b : bool) (P : Prop) : (b = true <-> P) -> (b = false <-> ~ P).
Proof. intro H. rewrite <- H. destruct b; intuition discriminate. Qed.

Lemma validateSizeFor768_false (v : SizeValue) :
  validateSizeFor768 v = false
  <-> includes "768" (engine_id v) = true
      /\ ~ inside 589824 1048576 (times (width v) (height v)).
Proof.
  pose proof (size_predicates v) as H. cbv zeta in H.
  destruct (includes "768" (engine_id v)); destruct H as [H1 H2].
  - rewrite (false_iff_not _ _ H1). tauto.
  - rewrite H2. intuition discriminate.
Qed.

Lemma validateSizeForOtherEngines_false (v : SizeValue) :
  validateSizeForOtherEngines v = false
  <-> includes "768" (engine_id v) = false
      /\ ~ inside 262144 1048576 (times (width v) (height v)).
Proof.
  pose proof (size_predicates v) as H. cbv zeta in H.
  destruct (includes "768" (engine_id v)); destruct H as [H1 H2].
  - rewrite H2. intuition discriminate.
  - rewrite (false_iff_not _ _ H1). tauto.
Qed.

Lemma validateSizeFor768_false_integer (v : SizeValue) (a b : Z) :
  width v == inject_Z a -> height v == inject_Z b ->
  validateSizeFor768 v = false
  <-> includes "768" (engine_id v) = true
      /\ ~ (589824 <= width v * height v /\ width v * height v <= 1048576).
Proof.
  intros Hw Hh. pose proof (size_predicates_integer v a b Hw Hh) as H. cbv zeta in H.
  destruct (includes "768" (engine_id v)); destruct H as [H1 H2].
  - rewrite (false_iff_not _ _ H1). tauto.
  - rewrite H2. intuition discriminate.
Qed.

Lemma validateSizeForOtherEngines_false_integer (v : SizeValue) (a b : Z) :
  width v == inject_Z a -> height v == inject_Z b ->
  validateSizeForOtherEngines v = false
  <-> includes "768" (engine_id v) = false
      /\ ~ (262144 <= width v * height v /\ width v * height v <= 1048576).
Proof.
  intros Hw Hh. pose proof (size_predicates_integer v a b Hw Hh) as H. cbv zeta in H.
  destruct (includes "768" (engine_id v)); destruct H as [H1 H2].
  - rewrite H2. intuition discriminate.
  - rewrite (false_iff_not _ _ H1). tauto.
Qed.

(* ================================================================= *)
(** ** General facts about parsing *)

Lemma merge_valid (a b : status) : merge a b = Valid <-> a = Valid /\ b = Valid.
Proof. destruct a, b; cbn; intuition discriminate. Qed.

Lemma dirtyIf_coherent (issues : list issue) : coherent (dirtyIf issues, issues).
Proof. destruct issues; cbn; unfold coherent; cbn; intuition discriminate. Qed.

Lemma mergeAll_valid (rs : list parsed) :
  fst (mergeAll rs) = Valid <-> Forall (fun r => fst r = Valid) rs.
Proof.
  induction rs as [|r rs IH]; cbn.
  - split; [constructor | reflexivity].
  - rewrite merge_valid, IH. split.
    + intros [H1 H2]. constructor; assumption.
    + intro H. inversion H; subst. split; assumption.
Qed.

Lemma mergeAll_coherent (rs : list parsed) :
  Forall coherent rs -> coherent (mergeAll rs).
Proof.
  induction 1 as [|r rs Hr Hrs IH]; unfold coherent in *; cbn.
  - tauto.
  - rewrite merge_valid. split.
    + intros [H1 H2]. apply Hr in H1. apply IH in H2. rewrite H1, H2. reflexivity.
    + intro H. apply app_eq_nil in H. destruct H as [H1 H2]. tauto.
Qed.

Lemma scan_coherent (p : path) (rs : list parsed) (dirty : option (list issue)) :
  Forall coherent rs ->
  match dirty with Some d => d <> [] | None => True end ->
  coherent (scan p rs dirty).
Proof.
  intro H. revert dirty.
  induction H as [|[st issues] rs Hr Hrs IH]; intros dirty Hd; cbn.
  - destruct dirty; unfold coherent; cbn; split; intro; try discriminate; tauto.
  - destruct st.
    + unfold coherent; cbn; tauto.
    + apply IH. destruct dirty; [assumption|].
      intro E. unfold coherent in Hr. cbn in Hr. apply Hr in E. discriminate.
    + apply IH. assumption.
Qed.

Lemma refine_coherent (p : path) (r : parsed) (holds : bool) (msg : string) :
  coherent r -> coherent (refine p r holds msg).
Proof.
  destruct r as [st issues]. unfold coherent, refine. cbn.
  intro H. destruct st, holds; cbn; try assumption;
    split; intro E; try discriminate; try (apply app_eq_nil in E; destruct E; discriminate).
Qed.

(** Parsing is valid exactly when it reports no issue. *)
Lemma parse_coherent (s : zschema) : forall p v, coherent (parse s p v).
Proof.
  induction s using zschema_nested_ind; intros p v; cbn [parse].
  - destruct v; unfold coherent; cbn; intuition discriminate.
  - destruct v; unfold coherent; cbn; intuition discriminate.
  - destruct v; try (unfold coherent; cbn; intuition discriminate).
    apply dirtyIf_coherent.
  - destruct v; try (unfold coherent; cbn; intuition discriminate).
    destruct (enumMember values s); unfold coherent; cbn; intuition discriminate.
  - destruct v; try (unfold coherent; cbn; intuition discriminate).
    destruct (Bool.eqb b0 b); unfold coherent; cbn; intuition discriminate.
  - destruct v; try (unfold coherent; cbn; intuition discriminate).
    apply mergeAll_coherent. constructor; [apply dirtyIf_coherent|].
    apply Forall_map. apply Forall_forall. intros ix _. apply IHs.
  - destruct v; try (unfold coherent; cbn; intuition discriminate).
    apply mergeAll_coherent. apply Forall_map.
    eapply Forall_impl; [|exact H]. intros ks Hks. apply Hks.
  - apply scan_coherent; [|exact I]. apply Forall_map.
    eapply Forall_impl; [|exact H]. intros o Ho. apply Ho.
  - apply refine_coherent, IHs.
  - destruct v; try apply IHs. unfold coherent; cbn; tauto.
  - destruct v; try apply IHs. unfold coherent; cbn; tauto.
Qed.

Lemma below_here (p : path) (c : issueCode) (m : string) : below p (mkIssue c p m).
Proof. exists []. cbn. symmetry. apply app_nil_r. Qed.

Lemma below_step (p : path) (g : segment) (i : issue) : below (p ++ [g]) i -> below p i.
Proof. intros [q Hq]. exists (g :: q). rewrite Hq, <- app_assoc. reflexivity. Qed.

Lemma mergeAll_issues (Q : issue -> Prop) (rs : list parsed) :
  Forall (fun r => Forall Q (snd r)) rs -> Forall Q (snd (mergeAll rs)).
Proof.
  induction 1 as [|r rs Hr Hrs IH]; cbn; [constructor|].
  apply Forall_app. split; assumption.
Qed.

Lemma scan_issues (Q : issue -> Prop) (p : path) (rs : list parsed) (dirty : option (list issue)) :
  Q (invalidUnion p) ->
  Forall (fun r => Forall Q (snd r)) rs ->
  match dirty with Some d => Forall Q d | None => True end ->
  Forall Q (snd (scan p rs dirty)).
Proof.
  intros Hu H. revert dirty.
  induction H as [|[st issues] rs Hr Hrs IH]; intros dirty Hd; cbn.
  - destruct dirty; cbn; [assumption|]. constructor; [assumption|constructor].
  - destruct st; cbn.
    + constructor.
    + apply IH. destruct dirty; assumption.
    + apply IH. assumption.
Qed.

Lemma parse_below (s : zschema) : forall p v, Forall (below p) (snd (parse s p v)).
Proof.
  induction s using zschema_nested_ind; intros p v; cbn [parse].
  - destruct v; cbn; repeat constructor; apply below_here.
  - destruct v; cbn; repeat constructor; apply below_here.
  - destruct v; cbn; try (repeat constructor; apply below_here).
    unfold checkNumbers. apply Forall_flat_map. apply Forall_forall. intros c _.
    destruct c; cbn; [destruct (lt n (inject_Z z)) | destruct (gt n (inject_Z z))];
      repeat constructor; apply below_here.
  - destruct v; cbn; try (repeat constructor; apply below_here).
    destruct (enumMember values s); cbn; repeat constructor; apply below_here.
  - destruct v; cbn; try (repeat constructor; apply below_here).
    destruct (Bool.eqb b0 b); cbn; repeat constructor; apply below_here.
  - destruct v; try (cbn; repeat constructor; apply below_here).
    apply mergeAll_issues. constructor.
    + cbn [snd]. unfold checkMinLength. destruct minLength as [m|]; [|constructor].
      destruct (List.length items <? m)%nat; repeat constructor; apply below_here.
    + apply Forall_map. apply Forall_forall. intros ix _.
      eapply Forall_impl; [|apply IHs]. intros i. apply below_step.
  - destruct v; try (cbn; repeat constructor; apply below_here).
    apply mergeAll_issues. apply Forall_map.
    eapply Forall_impl; [|exact H]. intros ks Hks. cbn beta.
    eapply Forall_impl; [|apply Hks]. intros i. apply below_step.
  - apply scan_issues; [apply below_here| |exact I]. apply Forall_map.
    eapply Forall_impl; [|exact H]. intros o Ho. apply Ho.
  - specialize (IHs p v). destruct (parse s p v) as [st issues]. cbn in IHs.
    unfold refine. destruct st, (f v); cbn; try assumption;
      apply Forall_app; (split; [assumption|]); repeat constructor; apply below_here.
  - destruct v; try apply IHs. constructor.
  - destruct v; try apply IHs. constructor.
Qed.

(* ================================================================= *)
(** ** Results on configurations with fields of the declared types *)

#[local] Arguments checkNumbers : simpl never.
#[local] Arguments checkMinLength : simpl never.
#[local] Arguments enumMember : simpl never.
#[local] Arguments multiplesOf64 : simpl never.
#[local] Arguments validateSizeFor768 : simpl never.
#[local] Arguments validateSizeForOtherEngines : simpl never.
#[local] Arguments invalidEnumValue : simpl never.
#[local] Arguments invalidUnion : simpl never.
#[local] Arguments customIssue : simpl never.

Lemma merge_dirtyIf (a b : list issue) : merge (dirtyIf a) (dirtyIf b) = dirtyIf (a ++ b).
Proof. destruct a, b; reflexivity. Qed.

Lemma merge_Valid_l (s : status) : merge Valid s = s.
Proof. destruct s; reflexivity. Qed.

Lemma merge_Valid_r (s : status) : merge s Valid = s.
Proof. destruct s; reflexivity. Qed.

Lemma merge_Aborted_r (s : status) : merge s Aborted = Aborted.
Proof. destruct s; reflexivity. Qed.

Lemma mergeAll_all_valid (rs : list parsed) :
  Forall (fun r => r = (Valid, [])) rs -> mergeAll rs = (Valid, []).
Proof.
  induction 1 as [|r rs Hr Hrs IH]; cbn; [reflexivity|].
  rewrite Hr, IH. reflexivity.
Qed.

Lemma mergeAll_aborted (rs : list parsed) :
  Exists (fun r => fst r = Aborted) rs -> fst (mergeAll rs) = Aborted.
Proof.
  induction 1 as [r rs Hr|r rs Hrs IH]; cbn.
  - rewrite Hr. reflexivity.
  - rewrite IH. apply merge_Aborted_r.
Qed.

Lemma parse_array (element : zschema) (m : option nat) (p : path) (items : list value) :
  parse (ZArray element m) p (VArr items)
  = mergeAll
      (report (checkMinLength p (List.length items) m)
         :: map (fun ix => parse element (p ++ [Idx (fst ix)]) (snd ix)) (indexed 0 items)).
Proof. reflexivity. Qed.

Lemma parse_object (shape : list (string * zschema)) (p : path) (fields : list (string * value)) :
  parse (ZObject shape) p (VObj fields)
  = mergeAll
      (map (fun ks => parse (snd ks) (p ++ [Key (fst ks)]) (get fields (fst ks))) shape).
Proof. reflexivity. Qed.

Lemma parse_union (options : list zschema) (p : path) (v : value) :
  parse (ZUnion options) p v = scan p (map (fun o => parse o p v) options) None.
Proof. reflexivity. Qed.

Lemma parse_effects (inner : zschema) (f : value -> bool) (msg : string) (p : path) (v : value) :
  parse (ZEffects inner f msg) p v = refine p (parse inner p v) (f v) msg.
Proof. reflexivity. Qed.

(** An array of strings against [z.array(z.string()).min(n)]. *)
Lemma parse_string_items (p : path) (l : list string) (i : nat) :
  Forall (fun r => r = (Valid, []))
    (map (fun ix => parse ZString (p ++ [Idx (fst ix)]) (snd ix)) (indexed i (map VStr l))).
Proof.
  revert i. induction l as [|x l IH]; intro i; cbn; constructor; [reflexivity | apply IH].
Qed.

Lemma parse_string_array (p : path) (l : list string) (m : option nat) :
  parse (ZArray ZString m) p (strings l)
  = report (checkMinLength p (List.length l) m).
Proof.
  unfold strings. rewrite parse_array. cbn [mergeAll].
  rewrite (mergeAll_all_valid _ (parse_string_items p l 0)).
  unfold report. cbn [fst snd]. rewrite length_map, merge_Valid_r, app_nil_r. reflexivity.
Qed.

(** An array of strings against [z.array(z.enum(values)).min(n)]: one
    element outside the enumeration aborts the array. *)
Lemma parse_enum_items_valid (p : path) (values l : list string) (i : nat) :
  forallb (enumMember values) l = true ->
  Forall (fun r => r = (Valid, []))
    (map (fun ix => parse (ZEnum values) (p ++ [Idx (fst ix)]) (snd ix))
       (indexed i (map VStr l))).
Proof.
  revert i. induction l as [|x l IH]; intros i H; cbn; [constructor|].
  cbn in H. apply andb_true_iff in H. destruct H as [Hx Hl].
  constructor; [rewrite Hx; reflexivity | apply IH, Hl].
Qed.

Lemma parse_enum_items_aborted (p : path) (values l : list string) (i : nat) :
  forallb (enumMember values) l = false ->
  Exists (fun r => fst r = Aborted)
    (map (fun ix => parse (ZEnum values) (p ++ [Idx (fst ix)]) (snd ix))
       (indexed i (map VStr l))).
Proof.
  revert i. induction l as [|x l IH]; intros i H; cbn in H; [discriminate|].
  cbn. destruct (enumMember values x) eqn:Hx.
  - apply Exists_cons_tl. apply IH. exact H.
  - apply Exists_cons_hd. reflexivity.
Qed.

Lemma parse_enum_array_valid (p : path) (values l : list string) (m : option nat) :
  forallb (enumMember values) l = true ->
  parse (ZArray (ZEnum values) m) p (strings l)
  = report (checkMinLength p (List.length l) m).
Proof.
  intro H. unfold strings. rewrite parse_array. cbn [mergeAll].
  rewrite (mergeAll_all_valid _ (parse_enum_items_valid p values l 0 H)).
  unfold report. cbn [fst snd]. rewrite length_map, merge_Valid_r, app_nil_r. reflexivity.
Qed.

Lemma parse_enum_array_aborted (p : path) (values l : list string) (m : option nat) :
  forallb (enumMember values) l = false ->
  fst (parse (ZArray (ZEnum values) m) p (strings l)) = Aborted.
Proof.
  intro H. unfold strings. rewrite parse_array. cbn [mergeAll fst].
  rewrite (mergeAll_aborted _ (parse_enum_items_aborted p values l 0 H)).
  apply merge_Aborted_r.
Qed.

(** *** The text-generation provider's image sub-config *)

Lemma checkNumbers_nil (p : path) (n : Q) : checkNumbers p n [] = [].
Proof. reflexivity. Qed.

Lemma scan_report (p : path) (a x : list issue) :
  scan p [report a; (Aborted, x)] None = report a.
Proof. destruct a; reflexivity. Qed.

Lemma scan_aborted (p : path) (r : parsed) (x : list issue) :
  fst r = Aborted -> scan p [r; (Aborted, x)] None = (Aborted, [invalidUnion p]).
Proof. destruct r as [st a]. cbn. intros ->. reflexivity. Qed.

Lemma parse_openaiImage (p : path) (i : switch OpenaiImage) :
  parse openaiImage p (encodeOpenaiImage i) = openaiImageResult p i.
Proof.
  destruct i as [|[size style]]; [reflexivity|].
  unfold openaiImage, encodeOpenaiImage, openaiImageResult.
  rewrite parse_union. cbn [map]. rewrite parse_object.
  cbn [map fst snd get lookup String.eqb Ascii.eqb Bool.eqb oi_size oi_style].
  rewrite parse_string_array.
  cbn [parse mergeAll fst snd].
  destruct (enumMember sizes size); cbn [fst snd app].
  - rewrite merge_Valid_r, merge_Valid_l, app_nil_r. apply scan_report.
  - apply scan_aborted. reflexivity.
Qed.

(** *** The image-generation provider's image sub-config *)

Lemma refine_report (p : path) (a : list issue) (holds : bool) (msg : string) :
  refine p (report a) holds msg = report (a ++ failing holds p msg).
Proof.
  unfold refine, report, failing.
  destruct a, holds; cbn; rewrite ?app_nil_r; try reflexivity.
Qed.

Lemma refine_aborted (p : path) (r : parsed) (holds : bool) (msg : string) :
  fst r = Aborted -> fst (refine p r holds msg) = Aborted.
Proof. destruct r as [st a]. cbn. intros ->. reflexivity. Qed.

Lemma sizeValue_encodeParams (i : ImageParams) : sizeValue (encodeParams i) = sizeOf i.
Proof. reflexivity. Qed.

Lemma parse_imageObject_valid (p : path) (i : ImageParams) :
  forallb (enumMember styles) (p_style i) = true ->
  parse stabilityaiImageObject p (encodeParams i) = report (fieldIssues p i).
Proof.
  intro H. unfold stabilityaiImageObject, encodeParams. rewrite parse_object.
  cbn [map fst snd get lookup String.eqb Ascii.eqb Bool.eqb].
  rewrite (parse_enum_array_valid _ _ _ _ H).
  cbn [parse mergeAll fst snd report].
  rewrite !checkNumbers_nil. cbn [dirtyIf app].
  rewrite !merge_Valid_l, merge_Valid_r, !merge_dirtyIf, app_nil_r. reflexivity.
Qed.

Lemma parse_imageObject_aborted (p : path) (i : ImageParams) :
  forallb (enumMember styles) (p_style i) = false ->
  fst (parse stabilityaiImageObject p (encodeParams i)) = Aborted.
Proof.
  intro H. unfold stabilityaiImageObject, encodeParams. rewrite parse_object.
  apply mergeAll_aborted. cbn [map fst snd get lookup String.eqb Ascii.eqb Bool.eqb].
  do 7 apply Exists_cons_tl. apply Exists_cons_hd.
  apply parse_enum_array_aborted, H.
Qed.

Lemma parse_stabilityaiImage (p : path) (i : switch ImageParams) :
  parse stabilityaiImage p (encodeImage i) = imageResult p i.
Proof.
  destruct i as [|i]; [reflexivity|].
  unfold stabilityaiImage, encodeImage, imageResult.
  rewrite parse_union. cbn [map]. rewrite !parse_effects, sizeValue_encodeParams.
  destruct (forallb (enumMember styles) (p_style i)) eqn:H.
  - rewrite (parse_imageObject_valid _ _ H), !refine_report.
    unfold crossIssues. rewrite <- !app_assoc.
    replace (parse (ZLiteral false) p (encodeParams i)) with (Aborted, [invalidLiteral p false])
      by reflexivity.
    apply scan_report.
  - apply scan_aborted. do 3 apply refine_aborted. apply parse_imageObject_aborted, H.
Qed.

Lemma parse_nullish_object (s : zschema) (p : path) (fields : list (string * value)) :
  parse (nullish s) p (VObj fields) = parse s p (VObj fields).
Proof. reflexivity. Qed.

Lemma parse_stabilityai_present (p : path) (s : Stabilityai) :
  parse stabilityai p (encodeStabilityai s) = imageResult (p ++ [Key "image"]) (s_image s).
Proof.
  unfold stabilityai, encodeStabilityai.
  rewrite parse_nullish_object, parse_object.
  cbn [map fst snd get lookup String.eqb Ascii.eqb Bool.eqb mergeAll].
  rewrite parse_stabilityaiImage. cbn [parse fst snd app].
  rewrite merge_Valid_l, merge_Valid_r, app_nil_r.
  destruct (imageResult (p ++ [Key "image"]) (s_image s)); reflexivity.
Qed.

Lemma parse_schema_with (c : Configuration) (sv : option value) :
  snd (parse schema [] (encodeWith c sv))
  = baseIssues c ++ snd (parse stabilityai [Key "stabilityai"] (orUndefined sv)).
Proof.
  destruct c. unfold schema, encodeWith, baseIssues. rewrite parse_object.
  destruct sv as [v|], time_format0; [| | |set (v := VUndefined)..];
  cbn [map fst snd get lookup String.eqb Ascii.eqb Bool.eqb app field
       Config.telemetry logs_level time_timezone time_format image_interval image_order
       transcript_cron transcript_minutes transcript_minimum openai_key summary_model
       summary_prompt summary_random openai_image stabilityai_config system_port storage_path
       orUndefined];
  generalize (parse stabilityai [Key "stabilityai"] v); intro r;
  cbn [parse mergeAll map fst snd get lookup String.eqb Ascii.eqb Bool.eqb app nullish];
  rewrite parse_openaiImage, !checkNumbers_nil; unfold enumIssues;
  destruct (enumMember levels logs_level0), (enumMember orders image_order0);
  repeat (cbn [snd app]; rewrite <- ?app_assoc, ?app_nil_r); reflexivity.
Qed.

Lemma forEach_push (issues : list issue) (errors : list string) (log : list logLine) :
  fold_left (forEachIssue true) issues (errors, log)
  = (errors ++ map errorMessage issues, log).
Proof.
  revert errors. induction issues as [|x issues IH]; intro errors; cbn [fold_left map].
  - rewrite app_nil_r. reflexivity.
  - unfold forEachIssue at 2, push. cbn [fst snd]. rewrite IH, <- app_assoc. reflexivity.
Qed.

Lemma forEach_write (issues : list issue) (errors : list string) (log : list logLine) :
  fold_left (forEachIssue false) issues (errors, log)
  = (errors, log ++ map LogError (map errorMessage issues)).
Proof.
  revert log. induction issues as [|x issues IH]; intro log; cbn [fold_left map].
  - rewrite app_nil_r. reflexivity.
  - unfold forEachIssue at 2, write. cbn [fst snd]. rewrite IH, <- app_assoc. reflexivity.
Qed.

Lemma validate_errors (inspectRedacted : value -> string) (configuration : value) :
  validate inspectRedacted true configuration
  = (map errorMessage (violations configuration), []).
Proof.
  unfold validate, safeParse, violations.
  pose proof (parse_coherent schema [] configuration) as H. unfold coherent in H.
  destruct (parse schema [] configuration) as [st issues]. cbn [fst snd negb] in *.
  destruct st; try apply forEach_push.
  destruct H as [H _]. rewrite (H eq_refl). reflexivity.
Qed.

Lemma violations_encode (c : Configuration) :
  violations (encode c)
  = baseIssues c ++ snd (stabilityaiResult [Key "stabilityai"] (stabilityai_config c)).
Proof.
  unfold violations, encode. rewrite parse_schema_with. f_equal.
  destruct (stabilityai_config c) as [| |s]; cbn [encodeOptional orUndefined stabilityaiResult];
    try reflexivity.
  rewrite parse_stabilityai_present. reflexivity.
Qed.

(** *** Acceptance *)

Lemma app_nil_iff {A : Type} (a b : list A) : a ++ b = [] <-> a = [] /\ b = [].
Proof.
  split; [apply app_eq_nil | intros [-> ->]; reflexivity].
Qed.

Lemma enumIssues_nil (p : path) (values : list string) (x : string) :
  enumIssues p values x = [] <-> enumMember values x = true.
Proof. unfold enumIssues. destruct (enumMember values x); intuition discriminate. Qed.

Lemma checkMin_nil (p : path) (n : Q) (z : Z) :
  checkNumbers p n [Min z] = [] <-> Qle_bool (inject_Z z) n = true.
Proof.
  unfold checkNumbers, flat_map, checkNumber, lt. rewrite app_nil_r.
  destruct (Qle_bool (inject_Z z) n); cbn; intuition discriminate.
Qed.

Lemma checkRange_nil (p : path) (n : Q) (lo hi : Z) :
  checkNumbers p n [Min lo; Max hi] = [] <-> between (inject_Z lo) (inject_Z hi) n = true.
Proof.
  unfold checkNumbers, flat_map, checkNumber, between, gt, lt. rewrite app_nil_r.
  destruct (Qle_bool (inject_Z lo) n), (Qle_bool n (inject_Z hi)); cbn; intuition discriminate.
Qed.

Lemma checkMinLength_nil (p : path) (len : nat) :
  checkMinLength p len (Some 1%nat) = [] <-> negb (Nat.eqb len 0) = true.
Proof.
  unfold checkMinLength. destruct len as [|len]; cbn; intuition discriminate.
Qed.

Lemma failing_nil (holds : bool) (p : path) (msg : string) :
  failing holds p msg = [] <-> holds = true.
Proof. destruct holds; cbn; intuition discriminate. Qed.

Lemma imageResult_nil (p : path) (i : switch ImageParams) :
  snd (imageResult p i) = []
  <-> match i with Disabled => True | Enabled i => acceptedParams i = true end.
Proof.
  destruct i as [|i]; cbn [imageResult snd]; [tauto|].
  unfold acceptedParams.
  destruct (forallb (enumMember styles) (p_style i)); cbn [snd report andb].
  - unfold fieldIssues, crossIssues.
    rewrite !app_nil_iff, !andb_true_iff, !checkMinLength_nil, !failing_nil.
    rewrite !(checkRange_nil _ _ _ _). tauto.
  - intuition discriminate.
Qed.

Lemma openaiImageResult_nil (p : path) (i : switch OpenaiImage) :
  snd (openaiImageResult p i) = [] <-> openaiImageRules i = true.
Proof.
  destruct i as [|o]; cbn [openaiImageResult openaiImageRules snd]; [tauto|].
  destruct (enumMember sizes (oi_size o)); cbn [snd report andb].
  - apply checkMinLength_nil.
  - intuition discriminate.
Qed.

Lemma baseIssues_nil (c : Configuration) : baseIssues c = [] <-> acceptedBase c = true.
Proof.
  unfold baseIssues, acceptedBase.
  rewrite !app_nil_iff, !andb_true_iff, !enumIssues_nil, openaiImageResult_nil.
  rewrite !(checkMin_nil _ _ _). tauto.
Qed.

Lemma stabilityaiResult_nil (p : path) (s : optional Stabilityai) :
  snd (stabilityaiResult p s) = [] <-> acceptedStabilityai s = true.
Proof.
  destruct s as [| |s]; cbn [stabilityaiResult acceptedStabilityai snd]; try tauto.
  rewrite imageResult_nil. destruct (s_image s); intuition.
Qed.

Lemma violations_nil (c : Configuration) : violations (encode c) = [] <-> accepted c = true.
Proof.
  rewrite violations_encode, app_nil_iff, baseIssues_nil, stabilityaiResult_nil.
  unfold accepted. rewrite andb_true_iff. tauto.
Qed.

(** *** The rule set of the specification implies acceptance *)

Lemma ruleMultiplesOf64_accepts (i : ImageParams) :
  ruleMultiplesOf64 i = true -> multiplesOf64 (sizeOf i) = true.
Proof.
  unfold ruleMultiplesOf64, multiplesOf64. cbn [sizeOf width height].
  rewrite !andb_true_iff, !Z.eqb_eq. intros [[[Hw Hh] Mw] Mh].
  apply isInteger_floor in Hw, Hh.
  split; apply rem64_zero.
  - exists (Qfloor (p_width i) / 64)%Z.
    rewrite <- (Z_div_exact_full_2 _ 64); [exact Hw | discriminate | exact Mw].
  - exists (Qfloor (p_height i) / 64)%Z.
    rewrite <- (Z_div_exact_full_2 _ 64); [exact Hh | discriminate | exact Mh].
Qed.

Lemma ruleArea_accepts (i : ImageParams) :
  isInteger (p_width i) = true ->
  isInteger (p_height i) = true ->
  ruleArea i = true ->
  validateSizeFor768 (sizeOf i) = true /\ validateSizeForOtherEngines (sizeOf i) = true.
Proof.
  intros Hw Hh. apply isInteger_floor in Hw, Hh.
  pose proof (size_predicates_integer (sizeOf i) _ _ Hw Hh) as H. cbv zeta in H.
  unfold ruleArea. cbn [sizeOf width height engine_id] in *.
  destruct (includes "768" (p_engine_id i)); rewrite between_true;
    intro Ha; destruct H as [H H']; split; try exact H'; apply H; exact Ha.
Qed.

Lemma paramsRules_accepted (i : ImageParams) :
  paramsRules i = true -> acceptedParams i = true.
Proof.
  unfold paramsRules, acceptedParams. rewrite !andb_true_iff.
  intros [[[[[[[[[[[Hw Hh] _] Hc] _] Hs] _] Ht] Hn] Hm] H64] Ha].
  apply ruleMultiplesOf64_accepts in H64. apply (ruleArea_accepts i Hw Hh) in Ha.
  destruct Ha as [Ha Hb]. intuition.
Qed.

Lemma rules_accepted (c : Configuration) : rules c = true -> accepted c = true.
Proof.
  unfold rules, accepted, acceptedBase. rewrite !andb_true_iff.
  intros [[[[[H1 H2] H3] H4] H5] H6]. repeat split; try assumption.
  unfold stabilityaiRules in H6. unfold acceptedStabilityai.
  destruct (stabilityai_config c) as [| |s]; try reflexivity.
  destruct (s_image s); [reflexivity|]. apply paramsRules_accepted, H6.
Qed.

(** *** Valid configurations *)





(** *** The two modes *)

(** C5. Mode separation: in log mode ([returnErrors] false) the returned
    sequence is empty whatever the configuration is, and in return-errors
    mode no line at all is written to the log. *)
Theorem mode_separation (inspectRedacted : value -> string) (configuration : value) :
  fst (validate inspectRedacted false configuration) = []
  /\ snd (validate inspectRedacted true configuration) = [].
Proof.
  split.
  - unfold validate. cbn [negb].
    destruct (safeParse schema configuration); [|reflexivity].
    unfold write. cbn [fst snd]. rewrite forEach_write. reflexivity.
  - rewrite validate_errors. reflexivity.
Qed.

(** *** The log level and the form of the messages *)

(** C8. A configuration that satisfies every rule, with the log level
    replaced by "trace", has exactly one violation, at path [logs.level];
    and on every configuration each returned message is the dotted path,
    a colon and a space, and the lower-cased message of the issue. *)
Theorem log_level_trace (inspectRedacted : value -> string) (c : Configuration) :
  rules c = true ->
  violations (encode (withLevel "trace" c))
  = [invalidEnumValue [Key "logs"; Key "level"] levels "trace"]
  /\ validate inspectRedacted true (encode (withLevel "trace" c))
     = (["logs.level: invalid enum value. expected 'silent' | 'error' | 'warn' | 'info' | 'http' | 'verbose' | 'debug' | 'silly', received 'trace'"%string],
        [])
  /\ forall configuration : value,
       fst (validate inspectRedacted true configuration)
       = map (fun i => (joinPath (ipath i) ++ ": " ++ toLowerCase (message i))%string)
           (violations configuration).
Proof.
  intro H. apply rules_accepted in H.
  assert (E : violations (encode (withLevel "trace" c))
              = [invalidEnumValue [Key "logs"; Key "level"] levels "trace"]).
  { unfold accepted in H. apply andb_true_iff in H. destruct H as [Hb Hs].
    rewrite violations_encode.
    apply stabilityaiResult_nil with (p := [Key "stabilityai"]) in Hs.
    cbn [withLevel stabilityai_config]. rewrite Hs, app_nil_r.
    unfold acceptedBase in Hb. rewrite !andb_true_iff in Hb.
    destruct Hb as [[[[_ H2] H3] H4] H5].
    unfold baseIssues. cbn [withLevel logs_level image_interval image_order
                            transcript_minimum openai_image].
    apply (checkMin_nil [Key "image"; Key "interval"]) in H2.
    apply (checkMin_nil [Key "transcript"; Key "minimum"]) in H4.
    apply (enumIssues_nil [Key "image"; Key "order"]) in H3.
    apply (openaiImageResult_nil [Key "openai"; Key "image"]) in H5.
    rewrite H2, H3, H4, H5. reflexivity. }
  split; [exact E|]. split.
  - rewrite validate_errors, E. reflexivity.
  - intro configuration. rewrite validate_errors. reflexivity.
Qed.

Lemma log_level_trace_witness :
  rules sample = true
  /\ fst (validate (fun _ => ""%string) true (encode (withLevel "trace" sample)))
     = ["logs.level: invalid enum value. expected 'silent' | 'error' | 'warn' | 'info' | 'http' | 'verbose' | 'debug' | 'silly', received 'trace'"%string].
Proof.
  split; [reflexivity|].
  destruct (log_level_trace (fun _ => ""%string) sample eq_refl) as [_ [H _]].
  rewrite H. reflexivity.
Defined.

(** *** The multiple-of-64 rule *)

Lemma multiplesOf64_iff (v : SizeValue) :
  multiplesOf64 v = true
  <-> exists a b : Z, width v == inject_Z (64 * a) /\ height v == inject_Z (64 * b).
Proof.
  unfold multiplesOf64. rewrite andb_true_iff, !rem64_zero. split.
  - intros [[a Ha] [b Hb]]. exists a, b. split; assumption.
  - intros [a [b [Ha Hb]]]. split; [exists a | exists b]; assumption.
Qed.

Lemma violations_withParams (i : ImageParams) (c : Configuration) :
  violations (encode (withParams i c))
  = baseIssues c ++ snd (imageResult [Key "stabilityai"; Key "image"] (Enabled i)).
Proof. rewrite violations_encode. reflexivity. Qed.

(** C2. Multiple-of-64 rule: the first refinement holds exactly when
    width and height are both integer multiples of 64.  With any engine
    identifier, width 100 and height 768 fail it and the violation is
    reported, while width 768 and height 768 pass (and the configuration
    is then free of violations). *)
Theorem multiple_of_64 (inspectRedacted : value -> string) :
  (forall v : SizeValue,
      multiplesOf64 v = true
      <-> exists a b : Z, width v == inject_Z (64 * a) /\ height v == inject_Z (64 * b))
  /\ (forall e : string,
        multiplesOf64 (mkSize 100 768 e) = false
        /\ In "stabilityai.image: width and height must be multiples of 64"%string
             (fst (validate inspectRedacted true (encode (withParams (sized e 100 768) sample)))))
  /\ (forall e : string,
        multiplesOf64 (mkSize 768 768 e) = true
        /\ validate inspectRedacted true (encode (withParams (sized e 768 768) sample))
           = ([], [])).
Proof.
  split; [exact multiplesOf64_iff|]. split; intro e.
  - split; [reflexivity|].
    rewrite validate_errors, violations_withParams.
    apply in_map_iff. exists (customIssue [Key "stabilityai"; Key "image"] msgMultiples).
    split; [reflexivity|].
    apply in_or_app. right. cbn [imageResult sized p_style forallb].
    change (forallb (enumMember styles) ["enhance"%string]) with true. cbn [snd report].
    apply in_or_app. right. unfold crossIssues. apply in_or_app. left.
    change (multiplesOf64 (sizeOf (sized e 100 768))) with false. left. reflexivity.
  - split; [reflexivity|].
    rewrite validate_errors.
    assert (H : accepted (withParams (sized e 768 768) sample) = true).
    { unfold accepted. change (acceptedBase _) with true. cbn [andb].
      cbn [acceptedStabilityai withParams stabilityai_config s_image].
      unfold acceptedParams, validateSizeFor768, validateSizeForOtherEngines.
      cbn [sized sizeOf p_style p_cfg_scale p_samples p_steps p_width p_height
           p_engine_id width height engine_id].
      destruct (includes "768" e); reflexivity. }
    apply violations_nil in H. rewrite H. reflexivity.
Qed.

(** *** Where custom issues come from *)

Lemma checkNumbers_notCustom (p : path) (n : Q) (cs : list check) :
  Forall notCustom (checkNumbers p n cs).
Proof.
  unfold checkNumbers. apply Forall_flat_map, Forall_forall. intros c _.
  destruct c; cbn [checkNumber];
    [destruct (lt n (inject_Z z)) | destruct (gt n (inject_Z z))];
    repeat constructor; intro H; discriminate H.
Qed.

Lemma checkMinLength_notCustom (p : path) (len : nat) (m : option nat) :
  Forall notCustom (checkMinLength p len m).
Proof.
  unfold checkMinLength. destruct m as [m|]; [|constructor].
  destruct (len <? m)%nat; repeat constructor. intro H; discriminate H.
Qed.

Lemma enumIssues_notCustom (p : path) (values : list string) (x : string) :
  Forall notCustom (enumIssues p values x).
Proof.
  unfold enumIssues. destruct (enumMember values x); repeat constructor.
  intro H; discriminate H.
Qed.

Lemma openaiImageResult_notCustom (p : path) (i : switch OpenaiImage) :
  Forall notCustom (snd (openaiImageResult p i)).
Proof.
  destruct i as [|o]; cbn [openaiImageResult snd]; [constructor|].
  destruct (enumMember sizes (oi_size o)); cbn [snd report].
  - apply checkMinLength_notCustom.
  - repeat constructor. intro H; discriminate H.
Qed.

Lemma baseIssues_notCustom (c : Configuration) : Forall notCustom (baseIssues c).
Proof.
  unfold baseIssues. rewrite !Forall_app. repeat split;
    first [apply checkNumbers_notCustom | apply enumIssues_notCustom
          | apply openaiImageResult_notCustom].
Qed.

Lemma fieldIssues_notCustom (p : path) (i : ImageParams) : Forall notCustom (fieldIssues p i).
Proof.
  unfold fieldIssues. rewrite !Forall_app. repeat split;
    first [apply checkNumbers_notCustom | apply checkMinLength_notCustom].
Qed.

(** The custom issues of a configuration are the issues of the three
    refinements. *)
Lemma custom_violations (c : Configuration) (s : Stabilityai) (i : ImageParams) (x : issue) :
  stabilityai_config c = Present s ->
  s_image s = Enabled i ->
  forallb (enumMember styles) (p_style i) = true ->
  code x = custom ->
  In x (violations (encode c)) <-> In x (crossIssues [Key "stabilityai"; Key "image"] (sizeOf i)).
Proof.
  intros Hs Hi Hm Hx. rewrite violations_encode, Hs. cbn [stabilityaiResult]. rewrite Hi.
  cbn [imageResult app]. rewrite Hm. cbn [snd report]. rewrite !in_app_iff.
  pose proof (baseIssues_notCustom c) as Hb.
  pose proof (fieldIssues_notCustom [Key "stabilityai"; Key "image"] i) as Hf.
  rewrite Forall_forall in Hb, Hf. unfold notCustom in Hb, Hf.
  split; [|tauto].
  intros [H|[H|H]]; [exfalso; exact (Hb x H Hx) | exfalso; exact (Hf x H Hx) | exact H].
Qed.

Lemma in_crossIssues (p : path) (v : SizeValue) (x : issue) :
  In x (crossIssues p v)
  <-> (multiplesOf64 v = false /\ x = customIssue p msgMultiples)
      \/ (validateSizeFor768 v = false /\ x = customIssue p msgSize768)
      \/ (validateSizeForOtherEngines v = false /\ x = customIssue p msgSizeOther).
Proof.
  unfold crossIssues, failing. rewrite !in_app_iff.
  destruct (multiplesOf64 v), (validateSizeFor768 v), (validateSizeForOtherEngines v);
    cbn [In]; intuition (try discriminate; auto).
Qed.

Lemma size768_reported (c : Configuration) (s : Stabilityai) (i : ImageParams) :
  stabilityai_config c = Present s ->
  s_image s = Enabled i ->
  forallb (enumMember styles) (p_style i) = true ->
  In (customIssue [Key "stabilityai"; Key "image"] msgSize768) (violations (encode c))
  <-> validateSizeFor768 (sizeOf i) = false.
Proof.
  intros Hs Hi Hm.
  rewrite (custom_violations c s i (customIssue [Key "stabilityai"; Key "image"] msgSize768)
             Hs Hi Hm eq_refl), in_crossIssues.
  split.
  - intros [[_ H]|[[H _]|[_ H]]]; [discriminate H | exact H | discriminate H].
  - intro H. right. left. split; [exact H | reflexivity].
Qed.

Lemma sizeOther_reported (c : Configuration) (s : Stabilityai) (i : ImageParams) :
  stabilityai_config c = Present s ->
  s_image s = Enabled i ->
  forallb (enumMember styles) (p_style i) = true ->
  In (customIssue [Key "stabilityai"; Key "image"] msgSizeOther) (violations (encode c))
  <-> validateSizeForOtherEngines (sizeOf i) = false.
Proof.
  intros Hs Hi Hm.
  rewrite (custom_violations c s i (customIssue [Key "stabilityai"; Key "image"] msgSizeOther)
             Hs Hi Hm eq_refl), in_crossIssues.
  split.
  - intros [[_ H]|[[_ H]|[H _]]]; [discriminate H | discriminate H | exact H].
  - intro H. right. right. split; [exact H | reflexivity].
Qed.

Lemma notCustom_customAt (q : path) (l : list issue) :
  Forall notCustom l -> Forall (customAt q) l.
Proof.
  apply Forall_impl. intros x H E. exfalso. exact (H E).
Qed.

Lemma failing_customAt (p : path) (holds : bool) (msg : string) :
  Forall (customAt p) (failing holds p msg).
Proof. destruct holds; repeat constructor. Qed.

Lemma imageResult_customAt (p : path) (i : switch ImageParams) :
  Forall (customAt p) (snd (imageResult p i)).
Proof.
  destruct i as [|i]; cbn [imageResult snd]; [constructor|].
  destruct (forallb (enumMember styles) (p_style i)); cbn [snd report].
  - unfold crossIssues. rewrite !Forall_app. repeat split;
      first [apply notCustom_customAt, fieldIssues_notCustom | apply failing_customAt].
  - repeat constructor.
Qed.

Lemma violations_customAt (c : Configuration) :
  Forall (customAt [Key "stabilityai"; Key "image"]) (violations (encode c)).
Proof.
  rewrite violations_encode. apply Forall_app. split.
  - apply notCustom_customAt, baseIssues_notCustom.
  - destruct (stabilityai_config c) as [| |s]; cbn [stabilityaiResult snd]; try constructor.
    apply (imageResult_customAt ([Key "stabilityai"] ++ [Key "image"])).
Qed.

Lemma crossIssues_reported (inspectRedacted : value -> string)
    (c : Configuration) (s : Stabilityai) (i : ImageParams) (x : issue) :
  stabilityai_config c = Present s ->
  s_image s = Enabled i ->
  forallb (enumMember styles) (p_style i) = true ->
  In x (crossIssues [Key "stabilityai"; Key "image"] (sizeOf i)) ->
  In (errorMessage x) (fst (validate inspectRedacted true (encode c))).
Proof.
  intros Hs Hi Hm Hx. rewrite validate_errors. cbn [fst]. apply in_map.
  rewrite violations_encode, Hs. cbn [stabilityaiResult]. rewrite Hi.
  cbn [imageResult app]. rewrite Hm. cbn [snd report].
  apply in_or_app. right. apply in_or_app. right. exact Hx.
Qed.

(** C10. When the refinements run (the parameter object did not abort),
    a violated multiple-of-64 or area rule is reported with the path of the
    image sub-config, [stabilityai.image]; every custom issue of the
    configuration sits at that path, never at a width or height field. *)
Theorem cross_field_path (inspectRedacted : value -> string)
    (c : Configuration) (s : Stabilityai) (i : ImageParams) :
  stabilityai_config c = Present s ->
  s_image s = Enabled i ->
  forallb (enumMember styles) (p_style i) = true ->
  let errors := fst (validate inspectRedacted true (encode c)) in
  (multiplesOf64 (sizeOf i) = false ->
   In "stabilityai.image: width and height must be multiples of 64"%string errors)
  /\ (validateSizeFor768 (sizeOf i) = false ->
      In "stabilityai.image: size must be between 589,824 (768x768) and 1,048,576 (1024x1024) for engine_id containing 768"%string errors)
  /\ (validateSizeForOtherEngines (sizeOf i) = false ->
      In "stabilityai.image: size must be between 262,144 (512x512) and 1,048,576 (1024x1024) for other engine_ids"%string errors)
  /\ errors = map errorMessage (violations (encode c))
  /\ (forall x : issue,
        In x (violations (encode c)) -> code x = custom ->
        ipath x = [Key "stabilityai"; Key "image"]).
Proof.
  intros Hs Hi Hm errors. unfold errors. repeat split.
  - intro H.
    apply (crossIssues_reported _ c s i
             (customIssue [Key "stabilityai"; Key "image"] msgMultiples) Hs Hi Hm).
    unfold crossIssues. rewrite H. left. reflexivity.
  - intro H.
    apply (crossIssues_reported _ c s i
             (customIssue [Key "stabilityai"; Key "image"] msgSize768) Hs Hi Hm).
    unfold crossIssues. rewrite H. apply in_or_app. right. left. reflexivity.
  - intro H.
    apply (crossIssues_reported _ c s i
             (customIssue [Key "stabilityai"; Key "image"] msgSizeOther) Hs Hi Hm).
    unfold crossIssues. rewrite H. apply in_or_app. right. apply in_or_app. right.
    left. reflexivity.
  - rewrite validate_errors. reflexivity.
  - intros x Hx. pose proof (violations_customAt c) as H.
    rewrite Forall_forall in H. exact (H x Hx).
Qed.

Lemma cross_field_path_witness :
  In "stabilityai.image: width and height must be multiples of 64"%string
    (fst (validate (fun _ => ""%string) true
            (encode (withParams (sized "stable-diffusion-v1-5" 100 768) sample)))).
Proof.
  refine (proj1 (cross_field_path (fun _ => ""%string)
                   (withParams (sized "stable-diffusion-v1-5" 100 768) sample)
                   (mkStabilityai "sk" (Enabled (sized "stable-diffusion-v1-5" 100 768)))
                   (sized "stable-diffusion-v1-5" 100 768)
                   eq_refl eq_refl eq_refl) _).
  reflexivity.
Defined.

(** *** The area rule *)

Lemma multiples_reported (c : Configuration) (s : Stabilityai) (i : ImageParams) :
  stabilityai_config c = Present s ->
  s_image s = Enabled i ->
  forallb (enumMember styles) (p_style i) = true ->
  In (customIssue [Key "stabilityai"; Key "image"] msgMultiples) (violations (encode c))
  <-> multiplesOf64 (sizeOf i) = false.
Proof.
  intros Hs Hi Hm.
  rewrite (custom_violations c s i (customIssue [Key "stabilityai"; Key "image"] msgMultiples)
             Hs Hi Hm eq_refl), in_crossIssues.
  split.
  - intros [[H _]|[[_ H]|[_ H]]]; [exact H | discriminate H | discriminate H].
  - intro H. left. split; [exact H | reflexivity].
Qed.

(** A width and a height that pass the multiple-of-64 rule are integers. *)
Lemma multiplesOf64_integers (v : SizeValue) :
  multiplesOf64 v = true ->
  exists a b : Z, width v == inject_Z a /\ height v == inject_Z b.
Proof.
  intro H. apply multiplesOf64_iff in H. destruct H as [a [b [Ha Hb]]].
  exists (64 * a)%Z, (64 * b)%Z. split; assumption.
Qed.

(** C1. Area-by-engine rule.  The source compares [width * height], a
    binary64 product, with the bounds.  For an engine identifier
    containing "768" the predicate of the first rule holds exactly when
    that product is in [589824, 1048576] and the predicate of the second
    rule always holds; for any other identifier it is the other way
    round, with [262144, 1048576].  On integer width and height, which is
    what the parameter object is meant to hold, the product in these
    statements is the exact area, so an area outside the applicable
    interval fails and an area on either bound passes.  For any width and
    height an exact area inside the interval, bounds included, passes.
    On a configuration whose image parameter object is present and not
    disabled (and reaches the refinements), validate(true) reports the
    violation of the applicable area rule exactly when the product is
    outside its interval, never when the exact area is inside, and an
    exact area outside the applicable interval is always reported: by the
    area rule, or, when width or height is not an integer, by the
    multiple-of-64 rule at least. *)
Theorem area_by_engine (inspectRedacted : value -> string) :
  (forall v : SizeValue,
      let size := times (width v) (height v) in
      if includes "768" (engine_id v)
      then (validateSizeFor768 v = true <-> inside 589824 1048576 size)
           /\ validateSizeForOtherEngines v = true
      else (validateSizeForOtherEngines v = true <-> inside 262144 1048576 size)
           /\ validateSizeFor768 v = true)
  /\ (forall (v : SizeValue) (a b : Z),
        width v == inject_Z a -> height v == inject_Z b ->
        let size := width v * height v in
        if includes "768" (engine_id v)
        then (validateSizeFor768 v = true <-> 589824 <= size /\ size <= 1048576)
             /\ validateSizeForOtherEngines v = true
        else (validateSizeForOtherEngines v = true <-> 262144 <= size /\ size <= 1048576)
             /\ validateSizeFor768 v = true)
  /\ (forall v : SizeValue,
        let size := width v * height v in
        (589824 <= size /\ size <= 1048576 -> validateSizeFor768 v = true)
        /\ (262144 <= size /\ size <= 1048576 -> validateSizeForOtherEngines v = true))
  /\ (forall (c : Configuration) (s : Stabilityai) (i : ImageParams),
        stabilityai_config c = Present s ->
        s_image s = Enabled i ->
        forallb (enumMember styles) (p_style i) = true ->
        let size := p_width i * p_height i in
        let rounded := times (p_width i) (p_height i) in
        let issues := violations (encode c) in
        let at768 := customIssue [Key "stabilityai"; Key "image"] msgSize768 in
        let atOther := customIssue [Key "stabilityai"; Key "image"] msgSizeOther in
        let atMultiples := customIssue [Key "stabilityai"; Key "image"] msgMultiples in
        fst (validate inspectRedacted true (encode c)) = map errorMessage issues
        /\ (In at768 issues
            <-> includes "768" (p_engine_id i) = true /\ ~ inside 589824 1048576 rounded)
        /\ (In atOther issues
            <-> includes "768" (p_engine_id i) = false /\ ~ inside 262144 1048576 rounded)
        /\ (forall a b : Z,
              p_width i == inject_Z a -> p_height i == inject_Z b ->
              (In at768 issues
               <-> includes "768" (p_engine_id i) = true
                   /\ ~ (589824 <= size /\ size <= 1048576))
              /\ (In atOther issues
                  <-> includes "768" (p_engine_id i) = false
                      /\ ~ (262144 <= size /\ size <= 1048576)))
        /\ (In at768 issues -> ~ (589824 <= size /\ size <= 1048576))
        /\ (In atOther issues -> ~ (262144 <= size /\ size <= 1048576))
        /\ (includes "768" (p_engine_id i) = true ->
            ~ (589824 <= size /\ size <= 1048576) ->
            In at768 issues \/ In atMultiples issues)
        /\ (includes "768" (p_engine_id i) = false ->
            ~ (262144 <= size /\ size <= 1048576) ->
            In atOther issues \/ In atMultiples issues)).
Proof.
  split; [exact size_predicates|].
  split; [exact size_predicates_integer|].
  split; [exact size_predicates_inside|].
  intros c s i Hs Hi Hm size rounded issues at768 atOther atMultiples.
  unfold size, rounded, issues, at768, atOther, atMultiples.
  pose proof (size768_reported c s i Hs Hi Hm) as H768.
  pose proof (sizeOther_reported c s i Hs Hi Hm) as HOther.
  pose proof (multiples_reported c s i Hs Hi Hm) as HMultiples.
  pose proof (size_predicates_inside (sizeOf i)) as [In768 InOther].
  cbn [sizeOf width height] in In768, InOther.
  refine (conj _ (conj _ (conj _ (conj _ (conj _ (conj _ (conj _ _))))))).
  - rewrite validate_errors. reflexivity.
  - rewrite H768. apply (validateSizeFor768_false (sizeOf i)).
  - rewrite HOther. apply (validateSizeForOtherEngines_false (sizeOf i)).
  - intros a b Hw Hh. split.
    + rewrite H768. apply (validateSizeFor768_false_integer (sizeOf i) a b Hw Hh).
    + rewrite HOther. apply (validateSizeForOtherEngines_false_integer (sizeOf i) a b Hw Hh).
  - intros H Hin. apply H768 in H. rewrite (In768 Hin) in H. discriminate H.
  - intros H Hin. apply HOther in H. rewrite (InOther Hin) in H. discriminate H.
  - intros He Hout. destruct (multiplesOf64 (sizeOf i)) eqn:E.
    + left. apply multiplesOf64_integers in E. destruct E as [a [b [Hw Hh]]].
      apply H768. apply (validateSizeFor768_false_integer (sizeOf i) a b Hw Hh).
      split; [exact He | exact Hout].
    + right. apply HMultiples. reflexivity.
  - intros He Hout. destruct (multiplesOf64 (sizeOf i)) eqn:E.
    + left. apply multiplesOf64_integers in E. destruct E as [a [b [Hw Hh]]].
      apply HOther. apply (validateSizeForOtherEngines_false_integer (sizeOf i) a b Hw Hh).
      split; [exact He | exact Hout].
    + right. apply HMultiples. reflexivity.
Qed.

Lemma area_by_engine_witness :
  In (customIssue [Key "stabilityai"; Key "image"] msgSizeOther)
    (violations (encode (withParams (sized "stable-diffusion-v1-5" 256 256) sample))).
Proof.
  destruct (proj2 (proj2 (proj2 (area_by_engine (fun _ => ""%string))))
              (withParams (sized "stable-diffusion-v1-5" 256 256) sample)
              (mkStabilityai "sk" (Enabled (sized "stable-diffusion-v1-5" 256 256)))
              (sized "stable-diffusion-v1-5" 256 256)
              eq_refl eq_refl eq_refl) as [_ [_ [_ [H _]]]].
  apply (proj2 (H 256%Z 256%Z (Qeq_refl _) (Qeq_refl _))).
  split; [reflexivity|].
  intros [Hlo _]. apply Qle_bool_iff in Hlo. discriminate Hlo.
Defined.

(** A width and a height that are not integers: the exact area is above
    1048576, the product of the source is rounded to 1048576 and passes
    the area rule, and the violation reported is the one of the
    multiple-of-64 rule. *)
Example rounded_area :
  let w := inject_Z (2 ^ 20) + 2 ^ (-32) in
  let h := 1 - 2 ^ (-53) in
  let i := sized "stable-diffusion-v1-5" w h in
  1048576 < w * h
  /\ inside 1048576 1048576 (times w h)
  /\ validateSizeForOtherEngines (sizeOf i) = true
  /\ fst (validate (fun _ => ""%string) true (encode (withParams i sample)))
     = ["stabilityai.image: width and height must be multiples of 64"%string].
Proof. vm_compute. repeat split; discriminate. Qed.

(** *** Number fields *)

Lemma parse_number_aborted (checks : list check) (p : path) (v : value) :
  isNumber v = false -> fst (parse (ZNumber checks) p v) = Aborted.
Proof. destruct v; cbn; intro H; try reflexivity; discriminate H. Qed.

Lemma parse_imageObject_wrong_type (p : path) (i : ImageParams) (key : string) (v : value) :
  In key integerFields ->
  isNumber v = false ->
  fst (parse stabilityaiImageObject p (withField key v (encodeParams i))) = Aborted.
Proof.
  intros Hk Hv. unfold stabilityaiImageObject, encodeParams, withField.
  rewrite parse_object. apply mergeAll_aborted.
  destruct Hk as [<-|[<-|[<-|[<-|[<-|[]]]]]];
    cbn [map fst snd get lookup String.eqb Ascii.eqb Bool.eqb].
  - do 1 apply Exists_cons_tl. apply Exists_cons_hd. apply parse_number_aborted, Hv.
  - do 2 apply Exists_cons_tl. apply Exists_cons_hd. apply parse_number_aborted, Hv.
  - do 3 apply Exists_cons_tl. apply Exists_cons_hd. apply parse_number_aborted, Hv.
  - do 5 apply Exists_cons_tl. apply Exists_cons_hd. apply parse_number_aborted, Hv.
  - do 6 apply Exists_cons_tl. apply Exists_cons_hd. apply parse_number_aborted, Hv.
Qed.

Lemma parse_stabilityaiImage_aborted (p : path) (fields : list (string * value)) :
  fst (parse stabilityaiImageObject p (VObj fields)) = Aborted ->
  parse stabilityaiImage p (VObj fields) = (Aborted, [invalidUnion p]).
Proof.
  intro H. unfold stabilityaiImage. rewrite parse_union. cbn [map].
  rewrite !parse_effects.
  replace (parse (ZLiteral false) p (VObj fields)) with (Aborted, [invalidLiteral p false])
    by reflexivity.
  apply scan_aborted. do 3 apply refine_aborted. exact H.
Qed.

(** C9, amended. The image-generation parameters are numbers, not
    required to be integers: a configuration is free of violations exactly
    when [accepted] holds, which bounds samples by [1, 10] and steps by
    [10, 50] and asks nothing of timeout; and a value of another primitive
    type in the place of width, height, timeout, samples or steps is one
    violation, reported for the image sub-config as a whole. *)
Theorem number_fields (inspectRedacted : value -> string) :
  (forall c : Configuration,
      fst (validate inspectRedacted true (encode c)) = [] <-> accepted c = true)
  /\ (forall (c : Configuration) (i : ImageParams) (key : string) (v : value),
        acceptedBase c = true ->
        In key integerFields ->
        isNumber v = false ->
        validate inspectRedacted true
          (encodeWith c
             (Some (VObj [ ("key"%string, VStr "sk");
                           ("image"%string, withField key v (encodeParams i)) ])))
        = (["stabilityai.image: invalid input"%string], [])).
Proof.
  split.
  - intro c. rewrite validate_errors. cbn [fst]. rewrite <- violations_nil.
    split; [apply map_eq_nil | intros ->; reflexivity].
  - intros c i key v Hc Hk Hv. rewrite validate_errors. unfold violations.
    rewrite parse_schema_with. apply baseIssues_nil in Hc. rewrite Hc.
    cbn [orUndefined app]. unfold stabilityai.
    rewrite parse_nullish_object, parse_object.
    cbn [map fst snd get lookup String.eqb Ascii.eqb Bool.eqb mergeAll app].
    unfold encodeParams, withField.
    rewrite (parse_stabilityaiImage_aborted _ _
               (parse_imageObject_wrong_type _ i key v Hk Hv)).
    reflexivity.
Qed.

Lemma number_fields_witness :
  validate (fun _ => ""%string) true
    (encodeWith sample
       (Some (VObj [ ("key"%string, VStr "sk");
                     ("image"%string,
                       withField "samples" (VStr "two") (encodeParams sampleParams)) ])))
  = (["stabilityai.image: invalid input"%string], []).
Proof.
  apply (proj2 (number_fields (fun _ => ""%string)) sample sampleParams
           "samples"%string (VStr "two")).
  - reflexivity.
  - right. right. right. left. reflexivity.
  - reflexivity.
Defined.

(** Against C9 as stated: timeout, samples and steps hold non-integer
    numbers and no violation is raised. *)
Lemma integer_typing_counterexample :
  isInteger (p_timeout fractionalParams) = false
  /\ isInteger (p_samples fractionalParams) = false
  /\ isInteger (p_steps fractionalParams) = false
  /\ validate (fun _ => ""%string) true (encode (withParams fractionalParams sample))
     = ([], []).
Proof. repeat split. Qed.

(** *** Every violated rule is reported *)

Lemma snd_mergeAll (rs : list parsed) : snd (mergeAll rs) = flat_map snd rs.
Proof. induction rs as [|r rs IH]; cbn; [reflexivity|]. rewrite IH. reflexivity. Qed.

Lemma parse_boolean_rule (p : path) (v : value) : snd (parse ZBoolean p v) = booleanRule p v.
Proof. destruct v; reflexivity. Qed.

Lemma parse_string_rule (p : path) (v : value) : snd (parse ZString p v) = stringRule p v.
Proof. destruct v; reflexivity. Qed.

Lemma parse_optional_string_rule (p : path) (v : value) :
  snd (parse (nullish ZString) p v) = optionalStringRule p v.
Proof. destruct v; reflexivity. Qed.

Lemma parse_number_rule (checks : list check) (p : path) (v : value) :
  snd (parse (ZNumber checks) p v) = numberRule checks p v.
Proof. destruct v; reflexivity. Qed.

Lemma parse_enum_rule (values : list string) (p : path) (v : value) :
  snd (parse (ZEnum values) p v) = enumRule values p v.
Proof.
  destruct v; try reflexivity. cbn [parse enumRule]. unfold enumIssues.
  destruct (enumMember values s); reflexivity.
Qed.

Lemma parse_object_rule (shape : list (string * zschema)) (p : path) (v : value) :
  snd (parse (ZObject shape) p v)
  = objectRule p v (fun fields =>
      flat_map (fun ks => snd (parse (snd ks) (p ++ [Key (fst ks)]) (get fields (fst ks))))
        shape).
Proof.
  destruct v; try reflexivity. rewrite parse_object, snd_mergeAll. cbn [objectRule].
  rewrite flat_map_concat_map, map_map, <- flat_map_concat_map. reflexivity.
Qed.

(** An object is parsed through the properties its shape names. *)
Lemma parse_object_agree (shape : list (string * zschema)) (p : path)
    (f1 f2 : list (string * value)) :
  (forall k, In k (map fst shape) -> get f1 k = get f2 k) ->
  parse (ZObject shape) p (VObj f1) = parse (ZObject shape) p (VObj f2).
Proof.
  intro H. rewrite !parse_object. f_equal. apply map_ext_in.
  intros [k s] Hin. cbn [fst snd]. rewrite (H k); [reflexivity|].
  apply in_map_iff. exists (k, s). split; [reflexivity | exact Hin].
Qed.

Lemma allStrings_map (items : list value) (l : list string) :
  allStrings items = Some l -> items = map VStr l.
Proof.
  revert l. induction items as [|v items IH]; intros l H.
  - injection H as <-. reflexivity.
  - destruct v; try discriminate H. cbn [allStrings] in H.
    destruct (allStrings items) as [l'|]; [|discriminate H].
    injection H as <-. cbn [map]. rewrite (IH l' eq_refl). reflexivity.
Qed.

Lemma asString_some (v : value) (s : string) : asString v = Some s -> v = VStr s.
Proof. destruct v; intro H; try discriminate H. injection H as ->. reflexivity. Qed.

Lemma asNumber_some (v : value) (n : Q) : asNumber v = Some n -> v = VNum n.
Proof. destruct v; intro H; try discriminate H. injection H as ->. reflexivity. Qed.

Lemma asStrings_some (v : value) (l : list string) : asStrings v = Some l -> v = strings l.
Proof.
  destruct v; intro H; try discriminate H. apply allStrings_map in H. rewrite H. reflexivity.
Qed.

Lemma asString_none (p : path) (v : value) :
  asString v = None -> fst (parse ZString p v) = Aborted.
Proof. destruct v; intro H; try reflexivity. discriminate H. Qed.

Lemma asNumber_none (checks : list check) (p : path) (v : value) :
  asNumber v = None -> fst (parse (ZNumber checks) p v) = Aborted.
Proof. destruct v; intro H; try reflexivity. discriminate H. Qed.

Lemma asString_none_enum (values : list string) (p : path) (v : value) :
  asString v = None -> fst (parse (ZEnum values) p v) = Aborted.
Proof. destruct v; intro H; try reflexivity. discriminate H. Qed.

Lemma allStrings_none (element : zschema) (p : path) (items : list value) (i : nat) :
  (forall q v, asString v = None -> fst (parse element q v) = Aborted) ->
  allStrings items = None ->
  Exists (fun r => fst r = Aborted)
    (map (fun ix => parse element (p ++ [Idx (fst ix)]) (snd ix)) (indexed i items)).
Proof.
  intro He. revert i. induction items as [|v items IH]; intros i H; [discriminate H|].
  cbn [indexed map fst snd].
  destruct (asString v) eqn:E.
  - apply Exists_cons_tl. apply IH. apply asString_some in E. subst v.
    cbn [allStrings] in H. destruct (allStrings items); [discriminate H | reflexivity].
  - apply Exists_cons_hd. apply He, E.
Qed.

Lemma asStrings_none (element : zschema) (m : option nat) (p : path) (v : value) :
  (forall q v, asString v = None -> fst (parse element q v) = Aborted) ->
  asStrings v = None -> fst (parse (ZArray element m) p v) = Aborted.
Proof.
  intros He H. destruct v; try reflexivity. rewrite parse_array.
  apply mergeAll_aborted. apply Exists_cons_tl. apply allStrings_none; assumption.
Qed.

(** *** The image sub-config of the text-generation provider *)

Lemma parse_openaiImage_rule (p : path) (v : value) :
  parse openaiImage p v
  = match asSwitch asOpenaiImage v with
    | Some i => openaiImageResult p i
    | None => (Aborted, [invalidUnion p])
    end.
Proof.
  destruct v as [| |b|n|s|items|fields]; try reflexivity.
  - destruct b; reflexivity.
  - cbn [asSwitch asOpenaiImage].
    destruct (asString (get fields "size")) as [size|] eqn:E1; cbn [andThen option_map].
    + destruct (asStrings (get fields "style")) as [style|] eqn:E2; cbn [andThen option_map].
      * rewrite <- (parse_openaiImage p (Enabled (mkOpenaiImage size style))).
        unfold openaiImage. rewrite !parse_union. cbn [map encodeOpenaiImage].
        rewrite (parse_object_agree _ p fields
                   [("size", VStr size); ("style", strings style)]); [reflexivity|].
        intros k [<-|[<-|[]]]; cbn [get lookup String.eqb Ascii.eqb Bool.eqb].
        -- apply asString_some, E1.
        -- apply asStrings_some, E2.
      * unfold openaiImage. rewrite parse_union. cbn [map].
        apply scan_aborted. rewrite parse_object. apply mergeAll_aborted.
        cbn [map fst snd]. apply Exists_cons_tl. apply Exists_cons_hd.
        apply asStrings_none; [|exact E2]. intros at_ item. apply asString_none.
    + unfold openaiImage. rewrite parse_union. cbn [map].
      apply scan_aborted. rewrite parse_object. apply mergeAll_aborted.
      cbn [map fst snd]. apply Exists_cons_hd. apply asString_none_enum, E1.
Qed.

(** *** The image sub-config of the image-generation provider *)

Lemma sizeValue_agree (f1 f2 : list (string * value)) :
  (forall k, In k ["engine_id"; "width"; "height"] -> get f1 k = get f2 k) ->
  sizeValue (VObj f1) = sizeValue (VObj f2).
Proof.
  intro H. unfold sizeValue, numberField, stringField.
  rewrite (H "width"), (H "height"), (H "engine_id"); [reflexivity|..]; cbn; tauto.
Qed.

Lemma parse_stabilityaiImage_agree (p : path) (f1 f2 : list (string * value)) :
  (forall k, In k ["engine_id"; "width"; "height"; "timeout"; "cfg_scale"; "samples";
                   "steps"; "style"] ->
             get f1 k = get f2 k) ->
  parse stabilityaiImage p (VObj f1) = parse stabilityaiImage p (VObj f2).
Proof.
  intro H. unfold stabilityaiImage. rewrite !parse_union. cbn [map].
  rewrite !parse_effects. unfold stabilityaiImageObject.
  rewrite (parse_object_agree _ p f1 f2); [|exact H].
  rewrite (sizeValue_agree f1 f2); [reflexivity|].
  intros k Hk. apply H. cbn [In] in *. tauto.
Qed.

Lemma asParams_none (p : path) (fields : list (string * value)) :
  asParams (VObj fields) = None ->
  fst (parse stabilityaiImageObject p (VObj fields)) = Aborted.
Proof.
  intro H. unfold stabilityaiImageObject. rewrite parse_object. apply mergeAll_aborted.
  cbn [map fst snd]. cbn [asParams] in H.
  destruct (asString (get fields "engine_id")) eqn:E1;
    [|apply Exists_cons_hd; apply asString_none, E1].
  apply Exists_cons_tl.
  destruct (asNumber (get fields "width")) eqn:E2;
    [|apply Exists_cons_hd; apply asNumber_none, E2].
  apply Exists_cons_tl.
  destruct (asNumber (get fields "height")) eqn:E3;
    [|apply Exists_cons_hd; apply asNumber_none, E3].
  apply Exists_cons_tl.
  destruct (asNumber (get fields "timeout")) eqn:E4;
    [|apply Exists_cons_hd; apply asNumber_none, E4].
  apply Exists_cons_tl.
  destruct (asNumber (get fields "cfg_scale")) eqn:E5;
    [|apply Exists_cons_hd; apply asNumber_none, E5].
  apply Exists_cons_tl.
  destruct (asNumber (get fields "samples")) eqn:E6;
    [|apply Exists_cons_hd; apply asNumber_none, E6].
  apply Exists_cons_tl.
  destruct (asNumber (get fields "steps")) eqn:E7;
    [|apply Exists_cons_hd; apply asNumber_none, E7].
  apply Exists_cons_tl.
  destruct (asStrings (get fields "style")) eqn:E8; [discriminate H|].
  apply Exists_cons_hd. apply asStrings_none; [|exact E8].
  intros at_ item. apply asString_none_enum.
Qed.

Lemma asParams_some (fields : list (string * value)) (i : ImageParams) (k : string) :
  asParams (VObj fields) = Some i ->
  In k ["engine_id"; "width"; "height"; "timeout"; "cfg_scale"; "samples"; "steps"; "style"] ->
  get fields k
  = get [ ("engine_id", VStr (p_engine_id i)); ("width", VNum (p_width i));
          ("height", VNum (p_height i)); ("timeout", VNum (p_timeout i));
          ("cfg_scale", VNum (p_cfg_scale i)); ("samples", VNum (p_samples i));
          ("steps", VNum (p_steps i)); ("style", strings (p_style i)) ] k.
Proof.
  intros H Hk. cbn [asParams] in H.
  destruct (asString (get fields "engine_id")) eqn:E1; [|discriminate H].
  destruct (asNumber (get fields "width")) eqn:E2; [|discriminate H].
  destruct (asNumber (get fields "height")) eqn:E3; [|discriminate H].
  destruct (asNumber (get fields "timeout")) eqn:E4; [|discriminate H].
  destruct (asNumber (get fields "cfg_scale")) eqn:E5; [|discriminate H].
  destruct (asNumber (get fields "samples")) eqn:E6; [|discriminate H].
  destruct (asNumber (get fields "steps")) eqn:E7; [|discriminate H].
  destruct (asStrings (get fields "style")) eqn:E8; [|discriminate H].
  cbn [andThen] in H. injection H as <-.
  apply asString_some in E1. apply asNumber_some in E2, E3, E4, E5, E6, E7.
  apply asStrings_some in E8.
  destruct Hk as [<-|[<-|[<-|[<-|[<-|[<-|[<-|[<-|[]]]]]]]]];
    cbn [get lookup String.eqb Ascii.eqb Bool.eqb
         p_engine_id p_width p_height p_timeout p_cfg_scale p_samples p_steps p_style];
    assumption.
Qed.

Lemma parse_stabilityaiImage_rule (p : path) (v : value) :
  parse stabilityaiImage p v
  = match asSwitch asParams v with
    | Some i => imageResult p i
    | None => (Aborted, [invalidUnion p])
    end.
Proof.
  destruct v as [| |b|n|s|items|fields]; try reflexivity.
  - destruct b; reflexivity.
  - cbn [asSwitch]. destruct (asParams (VObj fields)) as [i|] eqn:E; cbn [option_map].
    + rewrite <- (parse_stabilityaiImage p (Enabled i)). cbn [encodeImage].
      unfold encodeParams. apply parse_stabilityaiImage_agree.
      intros k Hk. apply (asParams_some fields i k E). exact Hk.
    + apply parse_stabilityaiImage_aborted. apply asParams_none, E.
Qed.

Lemma parse_nullish_rule (s : zschema) (p : path) (v : value) :
  snd (parse (nullish s) p v)
  = match v with
    | VUndefined | VNull => []
    | _ => snd (parse s p v)
    end.
Proof. destruct v; reflexivity. Qed.

Lemma objectRule_ext (p : path) (v : value) (f g : list (string * value) -> list issue) :
  (forall fields, f fields = g fields) -> objectRule p v f = objectRule p v g.
Proof. intro H. destruct v; try reflexivity. apply H. Qed.

Lemma openaiImage_rule (p : path) (v : value) :
  snd (parse openaiImage p v) = openaiImageRule p v.
Proof.
  rewrite parse_openaiImage_rule. unfold openaiImageRule.
  destruct (asSwitch asOpenaiImage v); reflexivity.
Qed.

Lemma stabilityaiImage_rule (p : path) (v : value) :
  snd (parse stabilityaiImage p v) = stabilityaiImageRule p v.
Proof.
  rewrite parse_stabilityaiImage_rule. unfold stabilityaiImageRule.
  destruct (asSwitch asParams v); reflexivity.
Qed.

Ltac byRules :=
  cbn [flat_map fst snd app]; rewrite ?app_nil_r;
  lazymatch goal with
  | |- _ ++ _ = _ ++ _ => apply (f_equal2 (@app issue)); byRules
  | |- objectRule _ _ _ = objectRule _ _ _ => apply objectRule_ext; intro; byRules
  | |- snd (parse ZBoolean _ _) = _ => apply parse_boolean_rule
  | |- snd (parse ZString _ _) = _ => apply parse_string_rule
  | |- snd (parse (nullish ZString) _ _) = _ => apply parse_optional_string_rule
  | |- snd (parse (ZNumber _) _ _) = _ => apply parse_number_rule
  | |- snd (parse (ZEnum _) _ _) = _ => apply parse_enum_rule
  | |- snd (parse (ZObject _) _ _) = _ => rewrite parse_object_rule; byRules
  | |- snd (parse openaiImage _ _) = _ => apply openaiImage_rule
  | |- snd (parse stabilityaiImage _ _) = _ => apply stabilityaiImage_rule
  | |- _ => reflexivity
  end.

(** The issues of the schema are the issues of the rules, rule by rule. *)
Lemma violations_rules (configuration : value) :
  violations configuration = ruleIssues configuration.
Proof.
  unfold violations, ruleIssues, schema. rewrite parse_object_rule.
  apply objectRule_ext. intro fields. unfold stabilityai.
  cbn [flat_map fst snd app]. rewrite parse_nullish_rule, parse_object_rule.
  repeat (apply (f_equal2 (@app issue)); [byRules|]).
  rewrite app_nil_r. apply (f_equal2 (@app issue)); [|byRules].
  destruct (get fields "stabilityai"); try reflexivity. byRules.
Qed.

Lemma asParams_object (v : value) (i : ImageParams) :
  asParams v = Some i -> asSwitch asParams v = Some (Enabled i).
Proof. destruct v; intro H; try discriminate H. cbn [asSwitch]. rewrite H. reflexivity. Qed.

Lemma ruleIssues_image (configuration : value) (i : ImageParams) (x : issue) :
  asParams (property (property configuration "stabilityai") "image") = Some i ->
  In x (snd (imageResult [Key "stabilityai"; Key "image"] (Enabled i))) ->
  In x (ruleIssues configuration).
Proof.
  intros H Hx. destruct configuration as [| | | | | |fields]; try discriminate H.
  cbn [property] in H. unfold ruleIssues. cbn [objectRule].
  destruct (get fields "stabilityai") as [| | | | | |provider]; try discriminate H.
  cbn [property objectRule] in *. unfold stabilityaiImageRule.
  rewrite (asParams_object _ _ H). rewrite !in_app_iff. tauto.
Qed.

(** C4, amended. For every configuration value, one call of
    [validate(true)] returns the messages of the issues of all the rules,
    rule after rule and without stopping at the first: each missing or
    wrongly typed section or field, each violated enumeration or bound,
    and, inside the image sub-config of the image-generation provider,
    each violated range rule together with each violated cross-field
    rule.  What is not reported rule by rule: the fields of a section
    that is itself not an object, and a provider image sub-config that is
    neither [false] nor an object whose fields have the declared
    primitive types and whose enumerated entries are members of their
    enumerations; such a sub-config gets the single issue [invalid_union]
    and none of its range or cross-field rules is reported.  The issues
    of each top-level section are reported whatever the other sections
    hold. *)
Theorem violations_all_reported (inspectRedacted : value -> string) :
  (forall configuration : value,
      validate inspectRedacted true configuration
      = (map errorMessage (ruleIssues configuration), []))
  /\ (forall (p : path) (v : value),
        snd (parse stabilityaiImage p v)
        = match asSwitch asParams v with
          | Some Disabled => []
          | Some (Enabled i) =>
              if forallb (enumMember styles) (p_style i)
              then fieldIssues p i ++ crossIssues p (sizeOf i)
              else [invalidUnion p]
          | None => [invalidUnion p]
          end)
  /\ (forall (p : path) (v : value),
        snd (parse openaiImage p v)
        = match asSwitch asOpenaiImage v with
          | Some Disabled => []
          | Some (Enabled o) =>
              if enumMember sizes (oi_size o)
              then checkMinLength (p ++ [Key "style"]) (List.length (oi_style o)) (Some 1%nat)
              else [invalidUnion p]
          | None => [invalidUnion p]
          end)
  /\ (forall (configuration : value) (i : ImageParams) (x : issue),
        asParams (property (property configuration "stabilityai") "image") = Some i ->
        forallb (enumMember styles) (p_style i) = true ->
        In x (fieldIssues [Key "stabilityai"; Key "image"] i
              ++ crossIssues [Key "stabilityai"; Key "image"] (sizeOf i)) ->
        In (errorMessage x) (fst (validate inspectRedacted true configuration)))
  /\ (forall (fields : list (string * value)) (k : string) (s : zschema) (x : issue),
        In (k, s) sections ->
        In x (snd (parse s [Key k] (get fields k))) ->
        In (errorMessage x) (fst (validate inspectRedacted true (VObj fields)))).
Proof.
  split; [|split; [|split; [|split]]].
  - intro configuration. rewrite validate_errors, violations_rules. reflexivity.
  - intros p v. rewrite parse_stabilityaiImage_rule.
    destruct (asSwitch asParams v) as [[|i]|]; try reflexivity.
    cbn [imageResult]. destruct (forallb (enumMember styles) (p_style i)); reflexivity.
  - intros p v. rewrite parse_openaiImage_rule.
    destruct (asSwitch asOpenaiImage v) as [[|o]|]; try reflexivity.
    cbn [openaiImageResult]. destruct (enumMember sizes (oi_size o)); reflexivity.
  - intros configuration i x H Hm Hx. rewrite validate_errors, violations_rules.
    cbn [fst]. apply in_map. apply (ruleIssues_image configuration i x H).
    cbn [imageResult]. rewrite Hm. exact Hx.
  - intros fields k s x Hs Hx. rewrite validate_errors. cbn [fst]. apply in_map.
    unfold violations, schema. rewrite parse_object_rule. cbn [objectRule].
    apply in_flat_map. exists (k, s). split; [exact Hs | exact Hx].
Qed.

Lemma violations_all_reported_witness :
  In "stabilityai.image.cfg_scale: number must be less than or equal to 35"
    (fst (validate (fun _ => "") true faults))
  /\ In "stabilityai.image: width and height must be multiples of 64"
       (fst (validate (fun _ => "") true faults)).
Proof.
  pose proof (proj1 (proj2 (proj2 (proj2 (violations_all_reported (fun _ => "")))))
                faults doubleFault) as H.
  split.
  - apply (H (tooBigNumber [Key "stabilityai"; Key "image"; Key "cfg_scale"] 35)
             eq_refl eq_refl).
    vm_compute. tauto.
  - apply (H (customIssue [Key "stabilityai"; Key "image"] msgMultiples) eq_refl eq_refl).
    vm_compute. tauto.
Defined.

(** The messages of [faults], all in one returned sequence. *)
Example faults_reported :
  validate (fun _ => "") true faults
  = ([ "telemetry: expected boolean, received string";
       "time.timezone: required";
       "stabilityai.image.cfg_scale: number must be less than or equal to 35";
       "stabilityai.image: width and height must be multiples of 64";
       "stabilityai.image: size must be between 262,144 (512x512) and 1,048,576 (1024x1024) for other engine_ids" ],
     []).
Proof. vm_compute. reflexivity. Qed.

(** Against C4 as stated: two rules are violated at once, the
    multiple-of-64 rule and the membership of a style tag, and the one
    message returned is neither of theirs. *)
Lemma exhaustive_reporting_counterexample :
  multiplesOf64 (sizeOf brokenParams) = false
  /\ forallb (enumMember styles) (p_style brokenParams) = false
  /\ validate (fun _ => ""%string) true (encode (withParams brokenParams sample))
     = (["stabilityai.image: invalid input"%string], []).
Proof. repeat split. Qed.

(** *** The disabled image sub-config *)

Lemma in_mergeAll (x : issue) (rs : list parsed) :
  In x (snd (mergeAll rs)) -> exists r, In r rs /\ In x (snd r).
Proof.
  induction rs as [|r rs IH]; cbn; [tauto|].
  rewrite in_app_iff. intros [H|H].
  - exists r. tauto.
  - destruct (IH H) as [r' [H1 H2]]. exists r'. tauto.
Qed.

Lemma parse_stabilityaiImage_false (p : path) :
  parse stabilityaiImage p (VBool false) = (Valid, []).
Proof. reflexivity. Qed.

Lemma below_head (k : string) (g : segment) (q : path) (x : issue) :
  below [Key k] x -> below (g :: q) x -> g = Key k.
Proof.
  intros [a Ha] [b Hb]. rewrite Ha in Hb. cbn in Hb. injection Hb as Hb _.
  symmetry. exact Hb.
Qed.

Lemma below_second (g1 g2 h1 h2 : segment) (x : issue) :
  below [g1; g2] x -> below [h1; h2] x -> g2 = h2.
Proof.
  intros [a Ha] [b Hb]. rewrite Ha in Hb. cbn in Hb. injection Hb as _ Hb _.
  exact Hb.
Qed.

Ltac elsewhere H Hx Hb :=
  subst; cbn [fst snd app] in Hx;
  match type of Hx with
  | In _ (snd (parse ?s ?p ?v)) =>
      pose proof (parse_below s p v) as H; rewrite Forall_forall in H;
      specialize (H _ Hx);
      pose proof (below_head _ _ _ _ H Hb) as E; discriminate E
  end.

(** C6. Disabled sentinel bypass: when the [image] property of the
    [stabilityai] object is [false], no violation lies at or below
    [stabilityai.image], whatever the other values of the configuration
    are. *)
Theorem disabled_sentinel_bypass (inspectRedacted : value -> string)
    (fields sf : list (string * value)) :
  get fields "stabilityai" = VObj sf ->
  get sf "image" = VBool false ->
  fst (validate inspectRedacted true (VObj fields))
  = map errorMessage (violations (VObj fields))
  /\ forall x : issue,
       In x (violations (VObj fields)) -> ~ below [Key "stabilityai"; Key "image"] x.
Proof.
  intros Hs Hi. split; [rewrite validate_errors; reflexivity|].
  intros x Hx Hb. unfold violations, schema in Hx. rewrite parse_object in Hx.
  apply in_mergeAll in Hx. destruct Hx as [r [Hr Hx]]. cbn [map] in Hr.
  destruct Hr as [Hr|[Hr|[Hr|[Hr|[Hr|[Hr|[Hr|[Hr|[]]]]]]]]];
    try (elsewhere H Hx Hb).
  subst r. cbn [fst snd app] in Hx. rewrite Hs in Hx. unfold stabilityai in Hx.
  rewrite parse_nullish_object, parse_object in Hx.
  cbn [map fst snd app mergeAll] in Hx. rewrite Hi, parse_stabilityaiImage_false in Hx.
  cbn [snd] in Hx. rewrite !app_nil_r in Hx.
  pose proof (parse_below ZString [Key "stabilityai"; Key "key"] (get sf "key")) as H.
  rewrite Forall_forall in H. specialize (H _ Hx).
  pose proof (below_second _ _ _ _ _ H Hb) as E. discriminate E.
Qed.

Lemma disabled_sentinel_bypass_witness :
  fst (validate (fun _ => ""%string) true (VObj disabledFields))
  = map errorMessage (violations (VObj disabledFields)).
Proof.
  exact (proj1 (disabled_sentinel_bypass (fun _ => ""%string) disabledFields
                  [ ("key", VNum 3); ("image", VBool false); ("width", VNum 100) ]%string
                  eq_refl eq_refl)).
Defined.

(** *** The shape of the image-generation provider config *)

Lemma parse_string_valid (p : path) (v : value) :
  fst (parse ZString p v) = Valid <-> isString v = true.
Proof. destruct v; cbn; intuition discriminate. Qed.

Lemma dirtyIf_valid (issues : list issue) : dirtyIf issues = Valid <-> issues = [].
Proof. destruct issues; cbn; intuition discriminate. Qed.

Lemma parse_number_valid (p : path) (v : value) :
  fst (parse (ZNumber []) p v) = Valid <-> isNumber v = true.
Proof. destruct v; cbn; intuition discriminate. Qed.

Lemma parse_range_valid (lo hi : Z) (p : path) (v : value) :
  fst (parse (ZNumber [Min lo; Max hi]) p v) = Valid
  <-> numberBetween (inject_Z lo) (inject_Z hi) v = true.
Proof.
  destruct v; cbn [parse fst numberBetween]; try (intuition discriminate).
  rewrite dirtyIf_valid. apply checkRange_nil.
Qed.

Lemma parse_style_items_valid (p : path) (items : list value) (i : nat) :
  Forall (fun r => fst r = Valid)
    (map (fun ix => parse (ZEnum styles) (p ++ [Idx (fst ix)]) (snd ix)) (indexed i items))
  <-> forallb isStyle items = true.
Proof.
  revert i. induction items as [|x items IH]; intro i; cbn [indexed map forallb].
  - split; [reflexivity | constructor].
  - rewrite andb_true_iff, <- (IH (S i)). cbn [fst snd].
    assert (Hx : fst (parse (ZEnum styles) (p ++ [Idx i]) x) = Valid <-> isStyle x = true).
    { destruct x; cbn; try (intuition discriminate).
      destruct (enumMember styles s); cbn; intuition discriminate. }
    rewrite <- Hx. split.
    + intro H. inversion H; subst. tauto.
    + intros [H1 H2]. constructor; assumption.
Qed.

Lemma parse_style_valid (p : path) (v : value) :
  fst (parse (ZArray (ZEnum styles) (Some 1%nat)) p v) = Valid <-> styleTags v = true.
Proof.
  destruct v; try (cbn; intuition discriminate).
  rewrite parse_array. cbn [mergeAll fst styleTags]. rewrite merge_valid, andb_true_iff.
  unfold report. cbn [fst]. rewrite dirtyIf_valid, checkMinLength_nil, mergeAll_valid.
  rewrite parse_style_items_valid. reflexivity.
Qed.

Lemma refine_valid (p : path) (r : parsed) (holds : bool) (msg : string) :
  fst (refine p r holds msg) = Valid <-> fst r = Valid /\ holds = true.
Proof. destruct r as [[| |] issues], holds; cbn; intuition discriminate. Qed.

Lemma scan_two_valid (p : path) (r1 r2 : parsed) :
  fst (scan p [r1; r2] None) = Valid <-> fst r1 = Valid \/ fst r2 = Valid.
Proof.
  destruct r1 as [[| |] a], r2 as [[| |] b]; cbn; intuition discriminate.
Qed.

Lemma parse_literal_false_valid (p : path) (v : value) :
  fst (parse (ZLiteral false) p v) = Valid <-> v = VBool false.
Proof.
  destruct v; cbn; try (intuition discriminate).
  destruct b; cbn; intuition discriminate.
Qed.

Lemma parse_imageObject_shape (p : path) (fields : list (string * value)) :
  fst (parse stabilityaiImageObject p (VObj fields)) = Valid
  <-> isString (get fields "engine_id") = true
      /\ isNumber (get fields "width") = true
      /\ isNumber (get fields "height") = true
      /\ isNumber (get fields "timeout") = true
      /\ numberBetween 0 35 (get fields "cfg_scale") = true
      /\ numberBetween 1 10 (get fields "samples") = true
      /\ numberBetween 10 50 (get fields "steps") = true
      /\ styleTags (get fields "style") = true.
Proof.
  unfold stabilityaiImageObject. rewrite parse_object, mergeAll_valid. cbn [map fst snd].
  rewrite !Forall_cons_iff.
  rewrite parse_string_valid, !parse_number_valid, !parse_range_valid, parse_style_valid.
  assert (F : Forall (fun r : parsed => fst r = Valid) [] <-> True)
    by (split; [trivial | constructor]).
  rewrite F. tauto.
Qed.

Lemma parse_stabilityaiImage_shape (p : path) (v : value) :
  fst (parse stabilityaiImage p v) = Valid <-> imageShape v = true.
Proof.
  unfold stabilityaiImage. rewrite parse_union. cbn [map].
  rewrite scan_two_valid, parse_literal_false_valid, !parse_effects, !refine_valid.
  destruct v; try (cbn; intuition discriminate).
  - destruct b; cbn; intuition discriminate.
  - rewrite parse_imageObject_shape. cbn [imageShape paramsShape].
    rewrite !andb_true_iff. intuition discriminate.
Qed.

Lemma parse_stabilityai_shape (p : path) (v : value) :
  fst (parse stabilityai p v) = Valid <-> providerShape v = true.
Proof.
  destruct v; try (cbn; intuition discriminate).
  unfold stabilityai. rewrite parse_nullish_object, parse_object, mergeAll_valid.
  cbn [map fst snd providerShape]. rewrite !Forall_cons_iff.
  rewrite parse_string_valid, parse_stabilityaiImage_shape, andb_true_iff.
  assert (F : Forall (fun r : parsed => fst r = Valid) [] <-> True)
    by (split; [trivial | constructor]).
  rewrite F. tauto.
Qed.

(** C7, amended. In a configuration that satisfies every other rule, the
    [stabilityai] property raises no violation exactly when it is absent
    ([undefined] or [null]) or an object with a string key whose image
    sub-config is the disabled sentinel [false] or a fully-populated
    parameter object satisfying its rules; [false] (or [true]) for the
    provider config as a whole is a violation. *)
Theorem provider_shape (inspectRedacted : value -> string)
    (c : Configuration) (sv : option value) :
  rules c = true ->
  (fst (validate inspectRedacted true (encodeWith c sv)) = []
   <-> providerShape (orUndefined sv) = true)
  /\ (forall b : bool,
        sv = Some (VBool b) ->
        validate inspectRedacted true (encodeWith c sv)
        = (["stabilityai: expected object, received boolean"%string], [])).
Proof.
  intro H. apply rules_accepted in H. unfold accepted in H.
  apply andb_true_iff in H. destruct H as [Hb _]. apply baseIssues_nil in Hb.
  split.
  - rewrite validate_errors. cbn [fst]. unfold violations.
    rewrite parse_schema_with, Hb. cbn [app].
    rewrite <- parse_stabilityai_shape with (p := [Key "stabilityai"]).
    pose proof (parse_coherent stabilityai [Key "stabilityai"] (orUndefined sv)) as C.
    unfold coherent in C. rewrite C. split; [apply map_eq_nil | intros ->; reflexivity].
  - intros b ->. rewrite validate_errors. unfold violations.
    rewrite parse_schema_with, Hb. reflexivity.
Qed.

Lemma provider_shape_witness :
  rules sample = true
  /\ validate (fun _ => ""%string) true (encodeWith sample (Some (VBool false)))
     = (["stabilityai: expected object, received boolean"%string], []).
Proof.
  split; [reflexivity|].
  exact (proj2 (provider_shape (fun _ => ""%string) sample (Some (VBool false)) eq_refl)
           false eq_refl).
Defined.

(** Against C7 as stated: the disabled sentinel in the place of the whole
    provider config is a violation. *)
Lemma provider_sentinel_counterexample :
  rules sample = true
  /\ validate (fun _ => ""%string) true (encodeWith sample (Some (VBool false)))
     = (["stabilityai: expected object, received boolean"%string], []).
Proof. split; reflexivity. Qed.

(* ================================================================= *)
(** ** Further properties of the validator *)

(** *** What log mode writes *)

Lemma safeParse_violations (configuration : value) :
  safeParse schema configuration
  = match violations configuration with
    | [] => None
    | issues => Some issues
    end.
Proof.
  unfold safeParse, violations.
  pose proof (parse_coherent schema [] configuration) as H. unfold coherent in H.
  destruct (parse schema [] configuration) as [st issues]. cbn [fst snd] in *.
  destruct st.
  - destruct H as [H _]. rewrite (H eq_refl). reflexivity.
  - destruct issues; [|reflexivity]. destruct H as [_ H]. discriminate (H eq_refl).
  - destruct issues; [|reflexivity]. destruct H as [_ H]. discriminate (H eq_refl).
Qed.

(** X1. Log mode writes the verbose dump of the configuration first,
    whether or not there are violations; when there are, it then writes
    one error line with their number and one error line per violation, in
    order, with the very messages that return-errors mode returns. *)
Theorem log_mode_trace (inspectRedacted : value -> string) (configuration : value) :
  let errors := fst (validate inspectRedacted true configuration) in
  snd (validate inspectRedacted false configuration)
  = LogVerbose (inspectRedacted configuration)
      :: match errors with
         | [] => []
         | _ =>
             LogError (show_nat (List.length errors) ++ " validation error(s)")
               :: map LogError errors
         end.
Proof.
  cbv zeta. rewrite validate_errors. cbn [fst].
  unfold validate. rewrite safeParse_violations. cbn [negb].
  destruct (violations configuration) as [|x issues] eqn:E; [reflexivity|].
  unfold write at 2. unfold write at 1. cbn [fst snd app].
  rewrite forEach_write. cbn [snd]. rewrite length_map. reflexivity.
Qed.

(** X2. A configuration that is not an object ([undefined], [null], a
    string, ...) gives exactly one message, with an empty path: the
    message starts with the colon. *)
Theorem non_object_configuration (inspectRedacted : value -> string) (configuration : value) :
  isObject configuration = false ->
  validate inspectRedacted true configuration
  = ([match configuration with
      | VUndefined => ": required"
      | _ => ": expected object, received " ++ parsedType configuration
      end]%string, []).
Proof.
  intro H. rewrite validate_errors.
  destruct configuration; try reflexivity. discriminate H.
Qed.

Lemma non_object_configuration_witness :
  validate (fun _ => ""%string) true VNull = ([": expected object, received null"%string], []).
Proof.
  exact (non_object_configuration (fun _ => ""%string) VNull eq_refl).
Defined.

Lemma mergeAll_in (x : issue) (r : parsed) (rs : list parsed) :
  In r rs -> In x (snd r) -> In x (snd (mergeAll rs)).
Proof.
  induction rs as [|r' rs IH]; cbn; [tauto|].
  rewrite in_app_iff. intros [->|H] Hx; [left; exact Hx | right; exact (IH H Hx)].
Qed.

Lemma violations_object (fields : list (string * value)) :
  violations (VObj fields)
  = snd (mergeAll (map (fun ks => parse (snd ks) [Key (fst ks)] (get fields (fst ks)))
                     sections)).
Proof. reflexivity. Qed.

Lemma section_issue (fields : list (string * value)) (k : string) (s : zschema) (x : issue) :
  In (k, s) sections ->
  In x (snd (parse s [Key k] (get fields k))) ->
  In x (violations (VObj fields)).
Proof.
  intros Hs Hx. rewrite violations_object.
  apply (mergeAll_in x (parse s [Key k] (get fields k))); [|exact Hx].
  apply in_map_iff. exists (k, s). split; [reflexivity | exact Hs].
Qed.

Ltac pick := first [left; reflexivity | right; pick].

(** X3. A configuration object in which one of the seven required
    sections is missing is reported with "<section>: required", whatever
    else it holds. *)
Theorem missing_section_required (inspectRedacted : value -> string)
    (fields : list (string * value)) (k : string) :
  In k requiredSections ->
  get fields k = VUndefined ->
  In (k ++ ": required")%string (fst (validate inspectRedacted true (VObj fields))).
Proof.
  intros Hk Hg. rewrite validate_errors. cbn [fst].
  change (k ++ ": required")%string
    with (errorMessage (invalidType [Key k] "" VUndefined)).
  apply in_map.
  destruct Hk as [<-|[<-|[<-|[<-|[<-|[<-|[<-|[]]]]]]]];
    match goal with
    | |- In (invalidType [Key ?k] _ _) _ =>
        eapply (section_issue fields k);
        [unfold sections, schema; cbn [In]; pick | rewrite Hg; left; reflexivity]
    end.
Qed.

Lemma missing_section_required_witness :
  In "logs: required"%string
    (fst (validate (fun _ => ""%string) true (VObj [("telemetry"%string, VBool true)]))).
Proof.
  apply (missing_section_required (fun _ => ""%string)
           [("telemetry"%string, VBool true)] "logs"%string).
  - right. left. reflexivity.
  - reflexivity.
Defined.

(** *** Sections are validated independently *)

Lemma segment_eqb_eq (a b : segment) : segment_eqb a b = true <-> a = b.
Proof.
  destruct a, b; cbn; try (intuition discriminate).
  - rewrite String.eqb_eq. split; [intros ->; reflexivity | intro H; injection H; auto].
  - rewrite Nat.eqb_eq. split; [intros ->; reflexivity | intro H; injection H; auto].
Qed.

Lemma isPrefix_iff (p q : path) : isPrefix p q = true <-> exists r, q = p ++ r.
Proof.
  revert q. induction p as [|a p IH]; intro q; cbn.
  - split; [intros _; exists q; reflexivity | reflexivity].
  - destruct q as [|b q].
    + split; [discriminate | intros [r Hr]; discriminate Hr].
    + rewrite andb_true_iff, segment_eqb_eq, IH. split.
      * intros [-> [r ->]]. exists r. reflexivity.
      * intros [r Hr]. injection Hr as -> ->. split; [reflexivity | exists r; reflexivity].
Qed.

Lemma under_below (p : path) (x : issue) : under p x = true <-> below p x.
Proof. apply isPrefix_iff. Qed.

Lemma filter_all {A : Type} (f : A -> bool) (l : list A) :
  Forall (fun x => f x = true) l -> filter f l = l.
Proof.
  induction 1 as [|x l Hx Hl IH]; cbn; [reflexivity|]. rewrite Hx, IH. reflexivity.
Qed.

Lemma filter_none {A : Type} (f : A -> bool) (l : list A) :
  Forall (fun x => f x = false) l -> filter f l = [].
Proof.
  induction 1 as [|x l Hx Hl IH]; cbn; [reflexivity|]. rewrite Hx, IH. reflexivity.
Qed.

Lemma under_other (p q : path) (k k' : string) (x : issue) :
  k <> k' -> below (p ++ [Key k']) x -> under (p ++ Key k :: q) x = false.
Proof.
  intros Hk [a Ha]. destruct (under (p ++ Key k :: q) x) eqn:E; [|reflexivity].
  apply under_below in E. destruct E as [b Hb]. rewrite Ha, <- !app_assoc in Hb.
  apply app_inv_head in Hb. cbn in Hb. injection Hb as Hb _. congruence.
Qed.

Lemma filter_parse_other (s : zschema) (p q : path) (k k' : string) (v : value) :
  k <> k' ->
  filter (under (p ++ Key k :: q)) (snd (parse s (p ++ [Key k']) v)) = [].
Proof.
  intro Hk. apply filter_none.
  eapply Forall_impl; [|apply parse_below]. intros x. apply under_other, Hk.
Qed.

Lemma filter_parse_same (s : zschema) (p : path) (v : value) :
  filter (under p) (snd (parse s p v)) = snd (parse s p v).
Proof.
  apply filter_all. eapply Forall_impl; [|apply parse_below].
  intros x. apply under_below.
Qed.

Lemma filter_fields_other (shape : list (string * zschema)) (p q : path) (k : string)
    (fields : list (string * value)) :
  ~ In k (map fst shape) ->
  filter (under (p ++ Key k :: q))
    (snd (mergeAll (map (fun ks => parse (snd ks) (p ++ [Key (fst ks)]) (get fields (fst ks)))
                      shape)))
  = [].
Proof.
  induction shape as [|[k' s'] shape IH]; intro H; cbn [map mergeAll snd fst]; [reflexivity|].
  cbn [map fst In] in H. rewrite filter_app, filter_parse_other, IH; [reflexivity | tauto | ].
  intro E. apply H. left. symmetry. exact E.
Qed.

(** The issues at or below a path that goes through the property [k] of
    an object come from the schema of that property alone. *)
Lemma object_issues_at (shape : list (string * zschema)) (p q : path) (k : string)
    (s : zschema) (fields : list (string * value)) :
  NoDup (map fst shape) ->
  In (k, s) shape ->
  filter (under (p ++ Key k :: q)) (snd (parse (ZObject shape) p (VObj fields)))
  = filter (under (p ++ Key k :: q)) (snd (parse s (p ++ [Key k]) (get fields k))).
Proof.
  rewrite parse_object.
  induction shape as [|[k' s'] shape IH]; intros Hn Hin; [destruct Hin|].
  cbn [map fst] in Hn. inversion Hn as [|? ? Hk' Hn']; subst.
  cbn [map mergeAll snd fst]. rewrite filter_app.
  destruct Hin as [E|Hin].
  - injection E as -> ->. rewrite filter_fields_other by exact Hk'. apply app_nil_r.
  - rewrite filter_parse_other, IH by (try assumption;
      intro E; subst k'; apply Hk'; apply (in_map fst _ _ Hin)).
    reflexivity.
Qed.

Lemma sections_NoDup : NoDup (map fst sections).
Proof.
  unfold sections, schema. cbn [map fst].
  repeat (constructor; [cbn [In]; intuition discriminate|]). constructor.
Qed.

(** X4. Sections are validated independently: in a configuration object,
    the issues at or below a declared top-level property are exactly the
    issues of that property's schema on that property's value; they do
    not depend on any other property. *)
Theorem section_issues (fields : list (string * value)) (k : string) (s : zschema) :
  In (k, s) sections ->
  filter (under [Key k]) (violations (VObj fields))
  = snd (parse s [Key k] (get fields k)).
Proof.
  intro H. unfold violations.
  change schema with (ZObject sections).
  pose proof (object_issues_at sections [] [] k s fields sections_NoDup H) as E.
  cbn [app] in E. rewrite E. apply filter_parse_same.
Qed.

Lemma section_issues_witness :
  filter (under [Key "logs"])
    (violations (VObj [("logs"%string, VObj [("level"%string, VStr "trace")])]))
  = snd (parse (ZObject [("level"%string, ZEnum levels)]) [Key "logs"]
           (VObj [("level"%string, VStr "trace")])).
Proof.
  apply (section_issues [("logs"%string, VObj [("level"%string, VStr "trace")])]
           "logs"%string (ZObject [("level"%string, ZEnum levels)])).
  right. left. reflexivity.
Defined.

(** *** Undeclared properties *)

Lemma get_other (fields : list (string * value)) (k k' : string) (v : value) :
  k <> k' -> get ((k, v) :: fields) k' = get fields k'.
Proof.
  intro H. unfold get. cbn [lookup]. apply String.eqb_neq in H. rewrite H. reflexivity.
Qed.

(** X5. A top-level property that the schema does not declare is
    ignored: adding it never changes what [validate(true)] returns. *)
Theorem undeclared_property_ignored (inspectRedacted : value -> string)
    (fields : list (string * value)) (k : string) (v : value) :
  ~ In k (map fst sections) ->
  validate inspectRedacted true (VObj ((k, v) :: fields))
  = validate inspectRedacted true (VObj fields).
Proof.
  intro H. rewrite !validate_errors, !violations_object. do 4 f_equal.
  apply map_ext_in. intros [k' s'] Hin. cbn [fst snd].
  rewrite get_other; [reflexivity|].
  intros ->. apply H. apply (in_map fst _ _ Hin).
Qed.

Lemma undeclared_property_ignored_witness :
  validate (fun _ => ""%string) true (VObj [("debug"%string, VBool true)])
  = validate (fun _ => ""%string) true (VObj []).
Proof.
  apply (undeclared_property_ignored (fun _ => ""%string) [] "debug"%string (VBool true)).
  unfold sections, schema. cbn [map fst In]. intuition discriminate.
Defined.

(** *** The image sub-config of the text-generation provider *)

Lemma parse_string_items_valid (p : path) (items : list value) (i : nat) :
  Forall (fun r => fst r = Valid)
    (map (fun ix => parse ZString (p ++ [Idx (fst ix)]) (snd ix)) (indexed i items))
  <-> forallb isString items = true.
Proof.
  revert i. induction items as [|x items IH]; intro i; cbn [indexed map forallb].
  - split; [reflexivity | constructor].
  - rewrite andb_true_iff, <- (IH (S i)). cbn [fst snd].
    rewrite <- (parse_string_valid (p ++ [Idx i]) x). split.
    + intro H. inversion H; subst. tauto.
    + intros [H1 H2]. constructor; assumption.
Qed.

Lemma parse_string_array_valid (p : path) (v : value) :
  fst (parse (ZArray ZString (Some 1%nat)) p v) = Valid <-> isStringArray v = true.
Proof.
  destruct v; try (cbn; intuition discriminate).
  rewrite parse_array. cbn [mergeAll fst isStringArray]. rewrite merge_valid, andb_true_iff.
  unfold report. cbn [fst]. rewrite dirtyIf_valid, checkMinLength_nil, mergeAll_valid.
  rewrite parse_string_items_valid. reflexivity.
Qed.

Lemma parse_size_valid (p : path) (v : value) :
  fst (parse (ZEnum sizes) p v) = Valid
  <-> match v with VStr s => enumMember sizes s | _ => false end = true.
Proof.
  destruct v; cbn [parse fst]; try (intuition discriminate).
  destruct (enumMember sizes s); cbn; intuition discriminate.
Qed.

Lemma parse_openaiImage_shape (p : path) (v : value) :
  fst (parse openaiImage p v) = Valid <-> openaiImageShape v = true.
Proof.
  unfold openaiImage. rewrite parse_union. cbn [map].
  rewrite scan_two_valid, parse_literal_false_valid.
  destruct v; try (cbn; intuition discriminate).
  - destruct b; cbn; intuition discriminate.
  - rewrite parse_object, mergeAll_valid. cbn [map fst snd openaiImageShape].
    rewrite !Forall_cons_iff, parse_size_valid, parse_string_array_valid, andb_true_iff.
    assert (F : Forall (fun r : parsed => fst r = Valid) [] <-> True)
      by (split; [trivial | constructor]).
    rewrite F. intuition discriminate.
Qed.

Lemma openai_image_issues (fields openai : list (string * value)) :
  get fields "openai" = VObj openai ->
  filter (under [Key "openai"; Key "image"]) (violations (VObj fields))
  = snd (parse openaiImage [Key "openai"; Key "image"] (get openai "image")).
Proof.
  intro H. unfold violations. change schema with (ZObject sections).
  assert (Hs : exists s, In ("openai"%string, s) sections
                         /\ exists shape, s = ZObject shape
                            /\ NoDup (map fst shape)
                            /\ In ("image"%string, openaiImage) shape).
  { eexists. split; [unfold sections, schema; cbn [In]; pick|].
    eexists. split; [reflexivity|]. split.
    - cbn [map fst]. repeat (constructor; [cbn [In]; intuition discriminate|]). constructor.
    - cbn [In]. pick. }
  destruct Hs as [s [Hs [shape [-> [Hn Hi]]]]].
  pose proof (object_issues_at sections [] [Key "image"] "openai" _ fields
                sections_NoDup Hs) as E.
  cbn [app] in E. rewrite E, H.
  pose proof (object_issues_at shape [Key "openai"] [] "image" _ openai Hn Hi) as E'.
  cbn [app] in E'. rewrite E'. apply filter_parse_same.
Qed.

(** X6. The image sub-config of the text-generation provider, in any
    configuration object whose [openai] property is an object: there is
    no issue at or below [openai.image] exactly when it is [false] or an
    object with a size of the enumeration and a non-empty array of
    strings as style; a missing [openai.image] is a violation. *)
Theorem openai_image_shape (fields openai : list (string * value)) :
  get fields "openai" = VObj openai ->
  filter (under [Key "openai"; Key "image"]) (violations (VObj fields)) = []
  <-> openaiImageShape (get openai "image") = true.
Proof.
  intro H. rewrite (openai_image_issues fields openai H).
  rewrite <- parse_openaiImage_shape with (p := [Key "openai"; Key "image"]).
  pose proof (parse_coherent openaiImage [Key "openai"; Key "image"] (get openai "image")) as C.
  unfold coherent in C. symmetry. exact C.
Qed.

(** X7. In any configuration object, whatever its other sections hold,
    there is no issue at or below [stabilityai] exactly when that
    property is absent, [null], or an object with a string key and an
    image sub-config that is [false] or a parameter object satisfying its
    rules. *)
Theorem stabilityai_shape (fields : list (string * value)) :
  filter (under [Key "stabilityai"]) (violations (VObj fields)) = []
  <-> providerShape (get fields "stabilityai") = true.
Proof.
  assert (Hs : In ("stabilityai"%string, stabilityai) sections)
    by (unfold sections, schema; cbn [In]; pick).
  unfold violations. change schema with (ZObject sections).
  pose proof (object_issues_at sections [] [] "stabilityai" stabilityai fields
                sections_NoDup Hs) as E.
  cbn [app] in E. rewrite E, filter_parse_same.
  rewrite <- parse_stabilityai_shape with (p := [Key "stabilityai"]).
  pose proof (parse_coherent stabilityai [Key "stabilityai"] (get fields "stabilityai")) as C.
  unfold coherent in C. symmetry. exact C.
Qed.

(** *** Symmetries of the cross-field rules *)

Lemma size_rules_comp (e : string) (w h w' h' : Q) :
  w * h == w' * h' ->
  validateSizeFor768 (mkSize w h e) = validateSizeFor768 (mkSize w' h' e)
  /\ validateSizeForOtherEngines (mkSize w h e)
     = validateSizeForOtherEngines (mkSize w' h' e).
Proof.
  intro H. unfold validateSizeFor768, validateSizeForOtherEngines, times.
  cbn [width height engine_id]. rewrite (binary64_comp _ _ H).
  split; reflexivity.
Qed.

Lemma bool_eq_iff (a b : bool) : (a = true <-> b = true) -> a = b.
Proof. destruct a, b; intuition discriminate. Qed.

Lemma multiplesOf64_negated (e : string) (w h : Q) :
  multiplesOf64 (mkSize (- w) (- h) e) = multiplesOf64 (mkSize w h e).
Proof.
  apply bool_eq_iff. rewrite !multiplesOf64_iff. cbn [width height].
  split; intros [a [b [Ha Hb]]]; exists (- a)%Z, (- b)%Z;
    rewrite !Z.mul_opp_r, !inject_Z_opp; split.
  - rewrite <- Ha. symmetry. apply Qopp_involutive.
  - rewrite <- Hb. symmetry. apply Qopp_involutive.
  - rewrite Ha. reflexivity.
  - rewrite Hb. reflexivity.
Qed.

Lemma crossIssues_swapped (p : path) (i : ImageParams) :
  crossIssues p (sizeOf (swapped i)) = crossIssues p (sizeOf i).
Proof.
  unfold crossIssues, sizeOf, swapped. cbn [p_width p_height p_engine_id].
  destruct (size_rules_comp (p_engine_id i) (p_height i) (p_width i)
              (p_width i) (p_height i) (Qmult_comm _ _)) as [-> ->].
  f_equal. unfold multiplesOf64. cbn [width height]. rewrite andb_comm. reflexivity.
Qed.

Lemma crossIssues_negated (p : path) (i : ImageParams) :
  crossIssues p (sizeOf (negated i)) = crossIssues p (sizeOf i).
Proof.
  unfold crossIssues, sizeOf, negated. cbn [p_width p_height p_engine_id].
  assert (H : - p_width i * - p_height i == p_width i * p_height i) by ring.
  destruct (size_rules_comp (p_engine_id i) _ _ _ _ H) as [-> ->].
  rewrite multiplesOf64_negated. reflexivity.
Qed.

Lemma violations_params_cross (c : Configuration) (i j : ImageParams) :
  p_style j = p_style i ->
  fieldIssues [Key "stabilityai"; Key "image"] j
  = fieldIssues [Key "stabilityai"; Key "image"] i ->
  crossIssues [Key "stabilityai"; Key "image"] (sizeOf j)
  = crossIssues [Key "stabilityai"; Key "image"] (sizeOf i) ->
  violations (encode (withParams j c)) = violations (encode (withParams i c)).
Proof.
  intros Hs Hf Hc. rewrite !violations_withParams. cbn [imageResult].
  rewrite Hs, Hf, Hc. reflexivity.
Qed.

(** X8. The rules do not tell width from height: exchanging them never
    changes what [validate(true)] returns. *)
Theorem swap_width_height (inspectRedacted : value -> string)
    (c : Configuration) (i : ImageParams) :
  validate inspectRedacted true (encode (withParams (swapped i) c))
  = validate inspectRedacted true (encode (withParams i c)).
Proof.
  rewrite !validate_errors. f_equal. f_equal.
  apply violations_params_cross; [reflexivity | reflexivity | apply crossIssues_swapped].
Qed.

(** X9. The rules do not look at the sign of the size: negating both
    width and height never changes what [validate(true)] returns, so a
    negative width with a negative height can pass. *)
Theorem negate_width_height (inspectRedacted : value -> string)
    (c : Configuration) (i : ImageParams) :
  validate inspectRedacted true (encode (withParams (negated i) c))
  = validate inspectRedacted true (encode (withParams i c)).
Proof.
  rewrite !validate_errors. f_equal. f_equal.
  apply violations_params_cross; [reflexivity | reflexivity | apply crossIssues_negated].
Qed.

(** *** What an accepted size looks like *)

Lemma accepted_area (v : SizeValue) (a b : Z) :
  width v == inject_Z a -> height v == inject_Z b ->
  validateSizeFor768 v = true ->
  validateSizeForOtherEngines v = true ->
  262144 <= width v * height v /\ width v * height v <= 1048576.
Proof.
  intros Hw Hh H1 H2. pose proof (size_predicates_integer v a b Hw Hh) as H. cbv zeta in H.
  destruct (includes "768" (engine_id v)).
  - destruct H as [H _]. apply H in H1. destruct H1 as [Hlo Hhi]. split; [|exact Hhi].
    apply Qle_trans with 589824; [|exact Hlo]. apply Qle_bool_iff. reflexivity.
  - destruct H as [H _]. apply H. exact H2.
Qed.

(** X10. In a configuration without violations, the width and the height
    of enabled image parameters are 64*a and 64*b for integers a and b of
    the same sign with 64 <= a*b <= 256: both are non-zero multiples of 64
    of absolute value at most 16384. *)
Theorem accepted_size (inspectRedacted : value -> string)
    (c : Configuration) (s : Stabilityai) (i : ImageParams) :
  stabilityai_config c = Present s ->
  s_image s = Enabled i ->
  fst (validate inspectRedacted true (encode c)) = [] ->
  exists a b : Z,
    p_width i == inject_Z (64 * a)
    /\ p_height i == inject_Z (64 * b)
    /\ (64 <= a * b <= 256)%Z
    /\ (1 <= Z.abs a <= 256)%Z
    /\ (1 <= Z.abs b <= 256)%Z.
Proof.
  intros Hs Hi Hv. rewrite validate_errors in Hv. cbn [fst] in Hv.
  apply map_eq_nil in Hv. apply violations_nil in Hv.
  unfold accepted in Hv. apply andb_true_iff in Hv. destruct Hv as [_ Hv].
  rewrite Hs in Hv. cbn [acceptedStabilityai] in Hv. rewrite Hi in Hv.
  unfold acceptedParams in Hv. rewrite !andb_true_iff in Hv.
  destruct Hv as [[[_ H64] H768] Hother].
  apply multiplesOf64_iff in H64. destruct H64 as [a [b [Ha Hb]]].
  destruct (accepted_area _ _ _ Ha Hb H768 Hother) as [Hlo Hhi].
  cbn [sizeOf width height] in Ha, Hb, Hlo, Hhi.
  rewrite Ha, Hb, <- inject_Z_mult in Hlo, Hhi.
  change 262144 with (inject_Z 262144) in Hlo.
  change 1048576 with (inject_Z 1048576) in Hhi.
  rewrite <- Zle_Qle in Hlo, Hhi.
  exists a, b. split; [exact Ha|]. split; [exact Hb|].
  replace (64 * a * (64 * b))%Z with (4096 * (a * b))%Z in Hlo, Hhi by ring.
  assert (Hab : (64 <= a * b <= 256)%Z) by lia.
  split; [exact Hab|].
  assert (Habs : (Z.abs a * Z.abs b = a * b)%Z) by (rewrite <- Z.abs_mul; lia).
  pose proof (Z.abs_nonneg a) as Hx. pose proof (Z.abs_nonneg b) as Hy.
  revert Habs Hx Hy. generalize (Z.abs a) (Z.abs b). intros x y Habs Hx Hy.
  assert (H1 : (1 <= x)%Z).
  { destruct (Z.eq_dec x 0) as [->|]; [rewrite Z.mul_0_l in Habs; lia | lia]. }
  assert (H2 : (1 <= y)%Z).
  { destruct (Z.eq_dec y 0) as [->|]; [rewrite Z.mul_0_r in Habs; lia | lia]. }
  pose proof (Z.mul_le_mono_nonneg_l 1 y x Hx H2) as H3.
  pose proof (Z.mul_le_mono_nonneg_r 1 x y Hy H1) as H4.
  lia.
Qed.

(** X11. A width or height that is not an integer is reported by the
    multiple-of-64 refinement whenever the refinements run. *)
Theorem non_integer_size_reported (inspectRedacted : value -> string)
    (c : Configuration) (s : Stabilityai) (i : ImageParams) :
  stabilityai_config c = Present s ->
  s_image s = Enabled i ->
  forallb (enumMember styles) (p_style i) = true ->
  isInteger (p_width i) && isInteger (p_height i) = false ->
  In "stabilityai.image: width and height must be multiples of 64"%string
    (fst (validate inspectRedacted true (encode c))).
Proof.
  intros Hs Hi Hm Hn.
  apply (crossIssues_reported _ c s i
           (customIssue [Key "stabilityai"; Key "image"] msgMultiples) Hs Hi Hm).
  assert (H : multiplesOf64 (sizeOf i) = false).
  { destruct (multiplesOf64 (sizeOf i)) eqn:E; [|reflexivity].
    apply multiplesOf64_iff in E. destruct E as [a [b [Ha Hb]]].
    cbn [sizeOf width height] in Ha, Hb.
    assert (Hw : isInteger (p_width i) = true).
    { unfold isInteger. apply Qeq_bool_iff. rewrite Ha at 2. rewrite Qfloor_Z. exact Ha. }
    assert (Hh : isInteger (p_height i) = true).
    { unfold isInteger. apply Qeq_bool_iff. rewrite Hb at 2. rewrite Qfloor_Z. exact Hb. }
    rewrite Hw, Hh in Hn. discriminate Hn. }
  unfold crossIssues. rewrite H. left. reflexivity.
Qed.

Lemma openai_image_shape_witness :
  filter (under [Key "openai"; Key "image"])
    (violations (VObj [("openai"%string, VObj [("image"%string, VBool false)])]))
  = [].
Proof.
  apply (proj2 (openai_image_shape
                  [("openai"%string, VObj [("image"%string, VBool false)])]
                  [("image"%string, VBool false)] eq_refl)).
  reflexivity.
Defined.

Lemma accepted_size_witness :
  exists a b : Z,
    p_width sampleParams == inject_Z (64 * a)
    /\ p_height sampleParams == inject_Z (64 * b)
    /\ (64 <= a * b <= 256)%Z
    /\ (1 <= Z.abs a <= 256)%Z
    /\ (1 <= Z.abs b <= 256)%Z.
Proof.
  exact (accepted_size (fun _ => ""%string) sample
           (mkStabilityai "sk" (Enabled sampleParams)) sampleParams
           eq_refl eq_refl eq_refl).
Defined.

Lemma non_integer_size_reported_witness :
  In "stabilityai.image: width and height must be multiples of 64"%string
    (fst (validate (fun _ => ""%string) true
            (encode (withParams (sized "stable-diffusion-v1-5" (1025 # 2) 512) sample)))).
Proof.
  exact (non_integer_size_reported (fun _ => ""%string)
           (withParams (sized "stable-diffusion-v1-5" (1025 # 2) 512) sample)
           (mkStabilityai "sk" (Enabled (sized "stable-diffusion-v1-5" (1025 # 2) 512)))
           (sized "stable-diffusion-v1-5" (1025 # 2) 512)
           eq_refl eq_refl eq_refl eq_refl).
Defined.

(** *** Missing and optional properties inside the sections *)

Lemma field_issue (fields section : list (string * value)) (k k' : string)
    (shape : list (string * zschema)) (s : zschema) (x : issue) :
  In (k, ZObject shape) sections ->
  get fields k = VObj section ->
  In (k', s) shape ->
  In x (snd (parse s [Key k; Key k'] (get section k'))) ->
  In x (violations (VObj fields)).
Proof.
  intros Hk Hg Hk' Hx. apply (section_issue fields k (ZObject shape) x Hk).
  rewrite Hg, parse_object.
  apply (mergeAll_in x (parse s ([Key k] ++ [Key k']) (get section k'))); [|exact Hx].
  apply in_map_iff. exists (k', s). split; [reflexivity | exact Hk'].
Qed.

(** X12. A required property missing from a section that is an object
    is reported with "<section>.<property>: required". *)
Theorem missing_field_required (inspectRedacted : value -> string)
    (fields section : list (string * value)) (k k' : string) :
  In (k, k') requiredFields ->
  get fields k = VObj section ->
  get section k' = VUndefined ->
  In (k ++ "." ++ k' ++ ": required")%string
    (fst (validate inspectRedacted true (VObj fields))).
Proof.
  intros Hk Hg Hu. rewrite validate_errors. cbn [fst].
  unfold requiredFields in Hk. cbn [In] in Hk.
  repeat (destruct Hk as [Hk|Hk]; [injection Hk as <- <-|]); [..|destruct Hk];
    match goal with
    | |- In (?a ++ "." ++ ?b ++ ": required")%string _ =>
        apply in_map_iff; exists (invalidType [Key a; Key b] "" VUndefined);
        split; [reflexivity|];
        eapply (field_issue fields section a b);
        [unfold sections, schema; cbn [In]; pick
        | exact Hg
        | cbn [In]; pick
        | rewrite Hu; left; reflexivity]
    end.
Qed.

Lemma missing_field_required_witness :
  In "logs.level: required"%string
    (fst (validate (fun _ => ""%string) true (VObj [("logs"%string, VObj [])]))).
Proof.
  apply (missing_field_required (fun _ => ""%string)
           [("logs"%string, VObj [])] [] "logs"%string "level"%string).
  - left. reflexivity.
  - reflexivity.
  - reflexivity.
Defined.

Lemma parse_nullish_string_valid (p : path) (v : value) :
  fst (parse (nullish ZString) p v) = Valid <-> isNullish v || isString v = true.
Proof. destruct v; cbn; intuition discriminate. Qed.

(** X13. [time.format] is optional: in any configuration object whose
    [time] property is an object, there is no issue at or below
    [time.format] exactly when it is missing, [null] or a string. *)
Theorem time_format_optional (fields time : list (string * value)) :
  get fields "time" = VObj time ->
  filter (under [Key "time"; Key "format"]) (violations (VObj fields)) = []
  <-> isNullish (get time "format") || isString (get time "format") = true.
Proof.
  intro H. unfold violations. change schema with (ZObject sections).
  assert (Hs : In ("time"%string,
                   ZObject [("timezone"%string, ZString); ("format"%string, nullish ZString)])
                 sections)
    by (unfold sections, schema; cbn [In]; pick).
  pose proof (object_issues_at sections [] [Key "format"] "time" _ fields
                sections_NoDup Hs) as E.
  cbn [app] in E. rewrite E, H.
  assert (Hn : NoDup (map fst [("timezone"%string, ZString);
                               ("format"%string, nullish ZString)])).
  { cbn [map fst]. repeat (constructor; [cbn [In]; intuition discriminate|]). constructor. }
  pose proof (object_issues_at _ [Key "time"] [] "format" (nullish ZString) time Hn
                (or_intror (or_introl eq_refl))) as E'.
  cbn [app] in E'. rewrite E', filter_parse_same.
  rewrite <- parse_nullish_string_valid with (p := [Key "time"; Key "format"]).
  pose proof (parse_coherent (nullish ZString) [Key "time"; Key "format"] (get time "format"))
    as C.
  unfold coherent in C. symmetry. exact C.
Qed.

Lemma time_format_optional_witness :
  filter (under [Key "time"; Key "format"])
    (violations (VObj [("time"%string, VObj [("format"%string, VNull)])]))
  = [].
Proof.
  apply (proj2 (time_format_optional
                  [("time"%string, VObj [("format"%string, VNull)])]
                  [("format"%string, VNull)] eq_refl)).
  reflexivity.
Defined.

(** *** The messages are lower-case *)

Lemma toLowerCase_app (a b : string) :
  toLowerCase (a ++ b) = (toLowerCase a ++ toLowerCase b)%string.
Proof. induction a as [|c a IH]; cbn; [reflexivity | rewrite IH; reflexivity]. Qed.

Lemma lower_ascii_idem (c : ascii) : lower_ascii (lower_ascii c) = lower_ascii c.
Proof. destruct c as [[] [] [] [] [] [] [] []]; reflexivity. Qed.

Lemma toLowerCase_idem (s : string) : toLowerCase (toLowerCase s) = toLowerCase s.
Proof.
  induction s as [|c s IH]; cbn; [reflexivity|]. rewrite lower_ascii_idem, IH. reflexivity.
Qed.

Lemma toLowerCase_digits (d : Decimal.uint) :
  toLowerCase (NilEmpty.string_of_uint d) = NilEmpty.string_of_uint d.
Proof. induction d; cbn; try rewrite IHd; reflexivity. Qed.

Lemma toLowerCase_show_nat (n : nat) : toLowerCase (show_nat n) = show_nat n.
Proof.
  unfold show_nat, NilZero.string_of_uint.
  destruct (Nat.to_uint n); try reflexivity; apply toLowerCase_digits.
Qed.

Lemma toLowerCase_segment (g : segment) :
  lowerSegment g = true -> toLowerCase (showSegment g) = showSegment g.
Proof.
  destruct g as [k|i]; cbn [lowerSegment showSegment].
  - apply String.eqb_eq.
  - intros _. apply toLowerCase_show_nat.
Qed.

Lemma toLowerCase_joinPath (p : path) :
  forallb lowerSegment p = true -> toLowerCase (joinPath p) = joinPath p.
Proof.
  unfold joinPath. induction p as [|g p IH]; cbn [forallb map String.concat]; [reflexivity|].
  rewrite andb_true_iff. intros [Hg Hp]. destruct p as [|g' p].
  - cbn. apply toLowerCase_segment, Hg.
  - cbn [map String.concat] in *. rewrite !toLowerCase_app, (toLowerCase_segment g Hg).
    rewrite (IH Hp). reflexivity.
Qed.

Lemma lowerPath_step (p : path) (g : segment) :
  forallb lowerSegment p = true -> lowerSegment g = true ->
  forallb lowerSegment (p ++ [g]) = true.
Proof.
  intros Hp Hg. rewrite forallb_app, Hp. cbn. rewrite Hg. reflexivity.
Qed.

Lemma parse_lower_paths (s : zschema) :
  forall p v,
    lowerKeys s = true ->
    forallb lowerSegment p = true ->
    Forall (fun x => forallb lowerSegment (ipath x) = true) (snd (parse s p v)).
Proof.
  induction s using zschema_nested_ind; intros p v Hs Hp; cbn [parse].
  - destruct v; cbn; repeat constructor; exact Hp.
  - destruct v; cbn; repeat constructor; exact Hp.
  - destruct v; cbn; try (repeat constructor; exact Hp).
    unfold checkNumbers. apply Forall_flat_map. apply Forall_forall. intros c _.
    destruct c; cbn; [destruct (lt n (inject_Z z)) | destruct (gt n (inject_Z z))];
      repeat constructor; exact Hp.
  - destruct v; cbn; try (repeat constructor; exact Hp).
    destruct (enumMember values s); cbn; repeat constructor; exact Hp.
  - destruct v; cbn; try (repeat constructor; exact Hp).
    destruct (Bool.eqb b0 b); cbn; repeat constructor; exact Hp.
  - destruct v; try (cbn; repeat constructor; exact Hp).
    apply mergeAll_issues. constructor.
    + cbn [snd]. unfold checkMinLength. destruct minLength as [m|]; [|constructor].
      destruct (List.length items <? m)%nat; repeat constructor; exact Hp.
    + apply Forall_map. apply Forall_forall. intros ix _.
      apply IHs; [exact Hs | apply lowerPath_step; [exact Hp | reflexivity]].
  - destruct v; try (cbn; repeat constructor; exact Hp).
    apply mergeAll_issues. apply Forall_map.
    cbn [lowerKeys] in Hs. rewrite forallb_forall in Hs.
    rewrite Forall_forall in H. apply Forall_forall. intros ks Hks.
    specialize (Hs ks Hks). apply andb_true_iff in Hs. destruct Hs as [Hk Hs].
    apply (H ks Hks); [exact Hs | apply lowerPath_step; [exact Hp | exact Hk]].
  - apply scan_issues; [exact Hp | | exact I]. apply Forall_map.
    cbn [lowerKeys] in Hs. rewrite forallb_forall in Hs.
    rewrite Forall_forall in H. apply Forall_forall. intros o Ho.
    apply (H o Ho); [apply Hs, Ho | exact Hp].
  - specialize (IHs p v Hs Hp). destruct (parse s p v) as [st issues]. cbn in IHs.
    unfold refine. destruct st, (f v); cbn; try assumption;
      apply Forall_app; (split; [assumption|]); repeat constructor; exact Hp.
  - destruct v; try (apply IHs; assumption). constructor.
  - destruct v; try (apply IHs; assumption). constructor.
Qed.

(** X14. Every message that [validate(true)] returns is lower-case
    throughout, path included. *)
Theorem messages_lower_case (inspectRedacted : value -> string) (configuration : value) :
  Forall (fun m => toLowerCase m = m)
    (fst (validate inspectRedacted true configuration)).
Proof.
  rewrite validate_errors. cbn [fst]. apply Forall_map.
  eapply Forall_impl; [|apply (parse_lower_paths schema [] configuration); reflexivity].
  intros x Hx. cbn beta in Hx. unfold errorMessage.
  rewrite !toLowerCase_app, toLowerCase_idem, (toLowerCase_joinPath _ Hx). reflexivity.
Qed.
